(** * HardCard Smart GitHub Upload Manager: chunk planning, session store
      and upload scheduler of [smart-upload-manager.py]

    The development embeds the [SmartUploadManager] class: the chunk planner
    [create_smart_chunks], the per-chunk uploader [upload_chunk_to_github],
    the scheduler [parallel_upload] running on the asyncio event loop, the
    session store [save_session] / [load_session], [resume_upload] and the
    progress report [get_session_status].

    Conventions.
    - Python [int] is [Z]; Python [float] (progress percentage, POSIX
      timestamps, sleep durations) is an exact rational [Q].
    - A [datetime] is the number of microseconds since the start of the
      calendar ([Z]).
    - A file is known by its size; the bytes a [read] returns are named by
      the [extent] (offset and length) they occupy in the file, and the
      SHA-256 digest of such a block is a function of the path and extent. *)

From Stdlib Require Import ZArith QArith Qround String DecimalString List Lia Lqa.
From stdpp Require Import base option strings list gmap.
From Stdlib Require DecimalPos.

Local Open Scope string_scope.
Local Open Scope Z_scope.

(** ** Data model *)

(** The keys of [CHUNK_SIZES], the values [self.network_speed] ranges over. *)
Inductive speed_class := slow | medium | fast | ultra.

Definition CHUNK_SIZES (s : speed_class) : Z :=
  match s with
  | slow => 1 * 1024 * 1024
  | medium => 5 * 1024 * 1024
  | fast => 10 * 1024 * 1024
  | ultra => 25 * 1024 * 1024
  end.

Record ChunkInfo := mkChunkInfo {
  chunk_id : string;
  file_path : string;
  chunk_index : Z;
  total_chunks : Z;
  size : Z;
  checksum : string;
  uploaded : bool;
  upload_time : option Q;
  retry_count : Z
}.

Definition datetime := Z.

Record UploadSession := mkUploadSession {
  session_id : string;
  repo_name : string;
  source_path : string;
  total_size : Z;
  chunks : list ChunkInfo;
  start_time : datetime;
  completed : bool;
  progress_percentage : Q
}.

(** The fields of [SmartUploadManager] the modelled methods read or write. *)
Record SmartUploadManager := mkManager {
  max_retries : Z;
  sessions : gmap string UploadSession;
  network_speed : speed_class
}.

(** Exceptions that leave the modelled functions. *)
Inductive exn :=
  | FileNotFoundError
  | ValueError
  | TypeError
  | KeyError
  | OverflowError.

Inductive result (A : Type) :=
  | Ok (a : A)
  | Raise (e : exn).
Arguments Ok {A} a.
Arguments Raise {A} e.

(** ** Files *)

(** The block of a file starting at [ext_offset] and [ext_length] bytes long. *)
Record extent := mkExtent { ext_offset : Z; ext_length : Z }.

(** A binary file object: the size of the file and the stream position. *)
Record handle := mkHandle { h_size : Z; h_pos : Z }.

Definition f_open (file_size : Z) : handle := mkHandle file_size 0.

(** [f.read(n)]: at most [n] bytes from the position up to the end of the
    file (everything that is left when [n] is negative); the position
    advances by what was read. *)
Definition f_read (h : handle) (n : Z) : extent * handle :=
  let left := Z.max 0 (h_size h - h_pos h) in
  let len := if n <? 0 then left else Z.min n left in
  (mkExtent (h_pos h) len, mkHandle (h_size h) (h_pos h + len)).

(** [f.seek(off)] *)
Definition f_seek (h : handle) (off : Z) : handle := mkHandle (h_size h) off.

(** [Path(p).name]: the text after the last slash (character 47). *)
Fixpoint path_name_aux (p acc : string) : string :=
  match p with
  | EmptyString => acc
  | String c p' =>
      if Ascii.eqb c (Ascii.ascii_of_nat 47) then path_name_aux p' EmptyString
      else path_name_aux p' (acc ++ String c EmptyString)
  end.

Definition path_name (p : string) : string := path_name_aux p EmptyString.

(** Decimal text of a Python int, as an f-string prints it. *)
Definition str_of_int (n : Z) : string :=
  match n with
  | Z0 => "0"
  | Zpos p => NilEmpty.string_of_uint (Pos.to_uint p)
  | Zneg p => "-" ++ NilEmpty.string_of_uint (Pos.to_uint p)
  end.

Section Planner.

(** [hashlib.sha256(chunk_data).hexdigest()] for the block of the file at
    the given path that the extent names. *)
Variable sha256_hexdigest : string -> extent -> string.

(** The file system: the regular files that can be stat'd, with [st_size]. *)
Implicit Type fs : gmap string Z.

(** The value of the local [chunk_size] after the adaptive rule
    (lines 196-200). *)
Definition planned_chunk_size (speed : speed_class) (file_size : Z) : Z :=
  let chunk_size := CHUNK_SIZES speed in
  if 100 * 1024 * 1024 <? file_size
  then Z.min (chunk_size * 2) (50 * 1024 * 1024)
  else chunk_size.

(** [num_chunks] of line 203; [//] is floor division. *)
Definition planned_num_chunks (speed : speed_class) (file_size : Z) : Z :=
  let chunk_size := planned_chunk_size speed file_size in
  (file_size + chunk_size - 1) / chunk_size.

(** The loop of lines 206-218 from iteration [i] on, [n] iterations left:
    each [chunk_data] (as the extent read) is kept next to the [ChunkInfo]
    built from it. *)
Fixpoint chunk_reads (session : string) (path : string)
    (chunk_size num_chunks : Z) (n : nat) (i : Z) (f : handle)
    : list (extent * ChunkInfo) :=
  match n with
  | O => []
  | S n' =>
      let '(chunk_data, f') := f_read f chunk_size in
      let chunk_checksum := sha256_hexdigest path chunk_data in
      let chunk_info :=
        mkChunkInfo (session ++ "_" ++ path_name path ++ "_" ++ str_of_int i)
                    path i num_chunks (ext_length chunk_data) chunk_checksum
                    false None 0 in
      (chunk_data, chunk_info)
        :: chunk_reads session path chunk_size num_chunks n' (i + 1) f'
  end.

Definition plan_reads (speed : speed_class) (file_size : Z)
    (path session : string) : list (extent * ChunkInfo) :=
  let chunk_size := planned_chunk_size speed file_size in
  let num_chunks := planned_num_chunks speed file_size in
  chunk_reads session path chunk_size num_chunks (Z.to_nat num_chunks) 0
              (f_open file_size).

(** [create_smart_chunks]: [stat] raises when the path is not a file that
    can be stat'd. *)
Definition create_smart_chunks (speed : speed_class) fs
    (path session : string) : result (list ChunkInfo) :=
  match fs !! path with
  | None => Raise FileNotFoundError
  | Some file_size => Ok (map snd (plan_reads speed file_size path session))
  end.

(** Lines 263-265 of [upload_chunk_to_github]: the block the uploader reads
    for a chunk under the network speed in force at upload time. *)
Definition upload_read (speed : speed_class) fs (chunk : ChunkInfo)
    : result extent :=
  match fs !! file_path chunk with
  | None => Raise FileNotFoundError
  | Some file_size =>
      let f := f_seek (f_open file_size) (chunk_index chunk * CHUNK_SIZES speed) in
      Ok (fst (f_read f (size chunk)))
  end.

End Planner.

(** ** Python values, dictionaries and JSON documents *)

(** The values that occur in the dictionaries [asdict] builds and [json]
    reads and writes. A [dict] is its items in insertion order. *)
#[local] Unset Elimination Schemes.
Inductive pyval :=
  | PNone
  | PBool (b : bool)
  | PInt (n : Z)
  | PFloat (x : Q)
  | PStr (s : string)
  | PDatetime (d : datetime)
  | PList (l : list pyval)
  | PDict (items : list (string * pyval)).
#[local] Set Elimination Schemes.

#[global] Instance result_ret : MRet result := fun _ a => Ok a.
#[global] Instance result_bind : MBind result :=
  fun _ _ f r => match r with Ok a => f a | Raise e => Raise e end.

(** [d.get(k)] *)
Fixpoint dict_get (d : list (string * pyval)) (k : string) : option pyval :=
  match d with
  | [] => None
  | (k', v) :: d' => if String.eqb k' k then Some v else dict_get d' k
  end.

(** [d[k] = v]: an existing key keeps its place. *)
Fixpoint dict_set (d : list (string * pyval)) (k : string) (v : pyval)
    : list (string * pyval) :=
  match d with
  | [] => [(k, v)]
  | (k', v') :: d' =>
      if String.eqb k' k then (k, v) :: d' else (k', v') :: dict_set d' k v
  end.

(** What [json.dump] accepts: everything but a [datetime]. *)
Fixpoint json_serializable (v : pyval) : bool :=
  match v with
  | PDatetime _ => false
  | PList l => forallb json_serializable l
  | PDict items => forallb (fun kv => json_serializable (snd kv)) items
  | _ => true
  end.

(** [json.dump] followed by [json.load] of the text gives the value back;
    the document on disk is kept as that value. *)
Definition json_dump (v : pyval) : result pyval :=
  if json_serializable v then Ok v else Raise TypeError.

Definition as_str (v : pyval) : result string :=
  match v with PStr s => Ok s | _ => Raise TypeError end.
Definition as_int (v : pyval) : result Z :=
  match v with PInt n => Ok n | _ => Raise TypeError end.
Definition as_bool (v : pyval) : result bool :=
  match v with PBool b => Ok b | _ => Raise TypeError end.
Definition as_float (v : pyval) : result Q :=
  match v with PFloat x => Ok x | _ => Raise TypeError end.
Definition as_optional_float (v : pyval) : result (option Q) :=
  match v with PNone => Ok None | PFloat x => Ok (Some x) | _ => Raise TypeError end.

(** Keyword arguments of a dataclass constructor: a field without default
    must be given, and no other name may be passed. *)
Definition required (d : list (string * pyval)) (k : string) : result pyval :=
  match dict_get d k with Some v => Ok v | None => Raise TypeError end.
Definition optional (d : list (string * pyval)) (k : string) (dflt : pyval) : pyval :=
  match dict_get d k with Some v => v | None => dflt end.
Definition known_keywords (fields : list string) (d : list (string * pyval)) : bool :=
  forallb (fun kv => existsb (String.eqb (fst kv)) fields) d.

Fixpoint result_map {A B} (f : A -> result B) (l : list A) : result (list B) :=
  match l with
  | [] => Ok []
  | a :: l' => b ← f a; bs ← result_map f l'; Ok (b :: bs)
  end.

(** ** Session store *)

Definition ChunkInfo_fields : list string :=
  ["chunk_id"; "file_path"; "chunk_index"; "total_chunks"; "size"; "checksum";
   "uploaded"; "upload_time"; "retry_count"].

Definition UploadSession_fields : list string :=
  ["session_id"; "repo_name"; "source_path"; "total_size"; "chunks";
   "start_time"; "completed"; "progress_percentage"].

Definition ChunkInfo_asdict (c : ChunkInfo) : pyval :=
  PDict [("chunk_id", PStr (chunk_id c));
         ("file_path", PStr (file_path c));
         ("chunk_index", PInt (chunk_index c));
         ("total_chunks", PInt (total_chunks c));
         ("size", PInt (size c));
         ("checksum", PStr (checksum c));
         ("uploaded", PBool (uploaded c));
         ("upload_time",
           match upload_time c with Some t => PFloat t | None => PNone end);
         ("retry_count", PInt (retry_count c))].

(** [asdict(session)] *)
Definition asdict (s : UploadSession) : list (string * pyval) :=
  [("session_id", PStr (session_id s));
   ("repo_name", PStr (repo_name s));
   ("source_path", PStr (source_path s));
   ("total_size", PInt (total_size s));
   ("chunks", PList (map ChunkInfo_asdict (chunks s)));
   ("start_time", PDatetime (start_time s));
   ("completed", PBool (completed s));
   ("progress_percentage", PFloat (progress_percentage s))].

(** [ChunkInfo] called with the items of [c] as keyword arguments; the
    fields hold values of their annotated types. *)
Definition ChunkInfo_of (v : pyval) : result ChunkInfo :=
  match v with
  | PDict c =>
      if known_keywords ChunkInfo_fields c then
        a_id ← required c "chunk_id" ≫= as_str;
        a_path ← required c "file_path" ≫= as_str;
        a_index ← required c "chunk_index" ≫= as_int;
        a_total ← required c "total_chunks" ≫= as_int;
        a_size ← required c "size" ≫= as_int;
        a_sum ← required c "checksum" ≫= as_str;
        a_up ← as_bool (optional c "uploaded" (PBool false));
        a_time ← as_optional_float (optional c "upload_time" PNone);
        a_retry ← as_int (optional c "retry_count" (PInt 0));
        Ok (mkChunkInfo a_id a_path a_index a_total a_size a_sum a_up a_time a_retry)
      else Raise TypeError
  | _ => Raise TypeError
  end.

Definition session_file (sid : string) : string :=
  ".upload_sessions/" ++ sid ++ ".json".

Section Store.

(** [datetime.isoformat] and [datetime.fromisoformat] of the standard
    library. *)
Variable isoformat : datetime -> string.
Variable fromisoformat : string -> result datetime.

(** The session directory: the document stored under each file name. *)
Implicit Type disk : gmap string pyval.

Definition save_session disk (session : UploadSession)
    : result (gmap string pyval) :=
  let session_dict := asdict session in
  let session_dict :=
    dict_set session_dict "start_time" (PStr (isoformat (start_time session))) in
  doc ← json_dump (PDict session_dict);
  Ok (<[session_file (session_id session) := doc]> disk).

Definition load_session disk (sid : string) : result (option UploadSession) :=
  match disk !! session_file sid with
  | None => Ok None
  | Some (PDict session_dict) =>
      a_start ← match dict_get session_dict "start_time" with
                | Some (PStr s) => fromisoformat s
                | Some _ => Raise TypeError
                | None => Raise KeyError
                end;
      let session_dict := dict_set session_dict "start_time" (PDatetime a_start) in
      a_chunks ← match dict_get session_dict "chunks" with
                 | Some (PList l) => result_map ChunkInfo_of l
                 | Some _ => Raise TypeError
                 | None => Raise KeyError
                 end;
      if known_keywords UploadSession_fields session_dict then
        a_id ← required session_dict "session_id" ≫= as_str;
        a_repo ← required session_dict "repo_name" ≫= as_str;
        a_source ← required session_dict "source_path" ≫= as_str;
        a_total ← required session_dict "total_size" ≫= as_int;
        a_done ← as_bool (optional session_dict "completed" (PBool false));
        a_progress ← as_float (optional session_dict "progress_percentage" (PFloat 0));
        Ok (Some (mkUploadSession a_id a_repo a_source a_total a_chunks a_start
                                  a_done a_progress))
      else Raise TypeError
  | Some _ => Raise TypeError
  end.

End Store.

(** ** Upload scheduler *)

Local Open Scope list_scope.

(** How the [try] block of one attempt in [upload_chunk_to_github] ends:
    [create_file] returned, [RateLimitExceededException] was raised (with the
    reset time [get_rate_limit] then reports), or any other exception was
    raised (by the GitHub client, the network or the file system). *)
Inductive outcome :=
  | Success
  | RateLimited (reset : Q)
  | OtherError.

(** What a run does, in the order it happens. Chunks are named by their
    position in [session.chunks]. *)
Inductive event :=
  | EvAcquire (pos : nat) (t : Q)
  | EvAttempt (pos : nat) (attempt : Z) (t : Q) (o : outcome)
  | EvReturn (pos : nat) (t : Q) (success : bool)
  | EvProgress (t : Q) (percentage : Q).

(** A task created for [upload_with_semaphore(chunk)]: not yet inside
    [async with semaphore]; inside it and suspended in [asyncio.sleep] until
    a time, to go on with the given iteration of the retry loop; or done,
    with the value [upload_chunk_to_github] returned. *)
Inductive task_state :=
  | Waiting
  | Sleeping (until : Q) (attempt : Z)
  | Finished (success : bool).

(** The event loop while [parallel_upload] runs: the clock, the value of
    the semaphore, the tasks (each with the position of its chunk), the
    session object, the index of the task the [for chunk, task in tasks]
    loop awaits, the events so far, and the session directory. *)
Record loop_state := mkLoop {
  ls_now : Q;
  ls_permits : Z;
  ls_tasks : list (nat * task_state);
  ls_session : UploadSession;
  ls_awaiting : nat;
  ls_trace : list event;
  ls_disk : gmap string pyval
}.

Definition mark_uploaded (c : ChunkInfo) (now : Q) : ChunkInfo :=
  mkChunkInfo (chunk_id c) (file_path c) (chunk_index c) (total_chunks c)
              (size c) (checksum c) true (Some now) (retry_count c).

Definition count_retry (c : ChunkInfo) : ChunkInfo :=
  mkChunkInfo (chunk_id c) (file_path c) (chunk_index c) (total_chunks c)
              (size c) (checksum c) (uploaded c) (upload_time c) (retry_count c + 1).

Definition with_chunks (s : UploadSession) (cs : list ChunkInfo) : UploadSession :=
  mkUploadSession (session_id s) (repo_name s) (source_path s) (total_size s)
                  cs (start_time s) (completed s) (progress_percentage s).

Definition with_progress (s : UploadSession) (p : Q) : UploadSession :=
  mkUploadSession (session_id s) (repo_name s) (source_path s) (total_size s)
                  (chunks s) (start_time s) (completed s) p.

Definition with_completed (s : UploadSession) (b : bool) : UploadSession :=
  mkUploadSession (session_id s) (repo_name s) (source_path s) (total_size s)
                  (chunks s) (start_time s) b (progress_percentage s).

(** [sum(1 for c in session.chunks if c.uploaded)] *)
Definition uploaded_count (cs : list ChunkInfo) : Z :=
  Z.of_nat (length (List.filter uploaded cs)).

(** [pending_chunks] of line 311, as positions in [session.chunks]. *)
Definition pending_positions (cs : list ChunkInfo) : list nat :=
  List.filter (fun i => match cs !! i with
                        | Some c => negb (uploaded c)
                        | None => false
                        end)
              (seq 0 (length cs)).

(** The chunk positions for which an attempt was made. *)
Definition attempted (tr : list event) : list nat :=
  flat_map (fun e => match e with EvAttempt pos _ _ _ => [pos] | _ => [] end) tr.

Section Scheduler.

(** The remote side and everything else an attempt depends on: the outcome
    of the attempt made for a chunk at a given time, after the given
    events. *)
Variable remote : list event -> Q -> ChunkInfo -> outcome.

(** The order in which the event loop runs what is ready: the entry it
    takes from a list of candidates (the first one when the answer is not
    in the list). *)
Variable choose : list nat -> nat.

Variable self : SmartUploadManager.

(** [upload_chunk_to_github] from iteration [attempt] of
    [for attempt in range(self.max_retries)] up to its next [await] or its
    [return]: the chunk as it leaves it, the state of the task, and the
    events. *)
Definition upload_chunk_to_github (now : Q) (history : list event)
    (pos : nat) (chunk : ChunkInfo) (attempt : Z)
    : ChunkInfo * task_state * list event :=
  if attempt <? max_retries self then
    match remote history now chunk with
    | Success =>
        (mark_uploaded chunk now, Finished true,
         [EvAttempt pos attempt now Success; EvReturn pos now true])
    | RateLimited reset =>
        let wait_time := (reset - now)%Q in
        (chunk,
         Sleeping (if Qle_bool wait_time 0 then now else (now + wait_time)%Q)
                  (attempt + 1),
         [EvAttempt pos attempt now (RateLimited reset)])
    | OtherError =>
        if attempt <? max_retries self - 1
        then (count_retry chunk,
              Sleeping (now + inject_Z (2 ^ attempt))%Q (attempt + 1),
              [EvAttempt pos attempt now OtherError])
        else (count_retry chunk, Finished false,
              [EvAttempt pos attempt now OtherError; EvReturn pos now false])
    end
  else (chunk, Finished false, [EvReturn pos now false]).

(** Leaving [async with semaphore] gives the permit back. *)
Definition released (ts : task_state) : Z :=
  match ts with Finished _ => 1 | _ => 0 end.

(** Task [i] runs at time [t] until it suspends or finishes. *)
Definition run_task (i : nat) (t : Q) (st : loop_state) : loop_state :=
  match ls_tasks st !! i with
  | Some (pos, Waiting) =>
      match chunks (ls_session st) !! pos with
      | Some chunk =>
          let history := ls_trace st ++ [EvAcquire pos t] in
          let '(chunk', ts', evs) := upload_chunk_to_github t history pos chunk 0 in
          mkLoop t (ls_permits st - 1 + released ts')
                 (<[i := (pos, ts')]> (ls_tasks st))
                 (with_chunks (ls_session st) (<[pos := chunk']> (chunks (ls_session st))))
                 (ls_awaiting st) (history ++ evs) (ls_disk st)
      | None => st
      end
  | Some (pos, Sleeping _ attempt) =>
      match chunks (ls_session st) !! pos with
      | Some chunk =>
          let '(chunk', ts', evs) :=
            upload_chunk_to_github t (ls_trace st) pos chunk attempt in
          mkLoop t (ls_permits st + released ts')
                 (<[i := (pos, ts')]> (ls_tasks st))
                 (with_chunks (ls_session st) (<[pos := chunk']> (chunks (ls_session st))))
                 (ls_awaiting st) (ls_trace st ++ evs) (ls_disk st)
      | None => st
      end
  | _ => st
  end.

(** The body of [for chunk, task in tasks] after [await task] (lines
    322-327). *)
Definition main_step (st : loop_state) : loop_state :=
  let session := ls_session st in
  let percentage :=
    (inject_Z (uploaded_count (chunks session))
       / inject_Z (Z.of_nat (length (chunks session))) * 100)%Q in
  mkLoop (ls_now st) (ls_permits st) (ls_tasks st)
         (with_progress session percentage)
         (S (ls_awaiting st))
         (ls_trace st ++ [EvProgress (ls_now st) percentage]) (ls_disk st).

(** A task can run now: it can enter the semaphore, or its sleep is over. *)
Definition task_ready (now : Q) (permits : Z) (ts : task_state) : bool :=
  match ts with
  | Waiting => 0 <? permits
  | Sleeping until _ => Qle_bool until now
  | Finished _ => false
  end.

Definition ready_tasks (st : loop_state) : list nat :=
  List.filter (fun i => match ls_tasks st !! i with
                        | Some (_, ts) => task_ready (ls_now st) (ls_permits st) ts
                        | None => false
                        end)
              (seq 0 (length (ls_tasks st))).

(** The main coroutine can go on: the task it awaits is done. *)
Definition main_ready (st : loop_state) : bool :=
  match ls_tasks st !! ls_awaiting st with
  | Some (_, Finished _) => true
  | _ => false
  end.

(** What is ready now; the main coroutine is named by the number of tasks. *)
Definition candidates (st : loop_state) : list nat :=
  ready_tasks st ++ (if main_ready st then [length (ls_tasks st)] else []).

(** The sleeping task that wakes first, from index [i] on. *)
Fixpoint earliest_sleeper (tasks : list (nat * task_state)) (i : nat)
    : option (nat * Q) :=
  match tasks with
  | [] => None
  | (_, Sleeping until _) :: rest =>
      match earliest_sleeper rest (S i) with
      | Some (j, u) => if Qle_bool until u then Some (i, until) else Some (j, u)
      | None => Some (i, until)
      end
  | _ :: rest => earliest_sleeper rest (S i)
  end.

Definition pick (l : list nat) (first : nat) : nat :=
  let i := choose l in
  if existsb (Nat.eqb i) l then i else first.

(** One turn of the event loop: something that is ready runs; when nothing
    is, the loop idles until the first sleeper wakes and runs it; when
    nobody sleeps either, nothing can ever run again. *)
Definition step (st : loop_state) : option loop_state :=
  match candidates st with
  | first :: rest =>
      let i := pick (first :: rest) first in
      if Nat.eqb i (length (ls_tasks st))
      then Some (main_step st)
      else Some (run_task i (ls_now st) st)
  | [] =>
      match earliest_sleeper (ls_tasks st) 0 with
      | Some (i, t) => Some (run_task i t st)
      | None => None
      end
  end.

Fixpoint run (fuel : nat) (st : loop_state) : loop_state :=
  match fuel with
  | O => st
  | S fuel' =>
      match step st with
      | Some st' => run fuel' st'
      | None => st
      end
  end.

(** The [for chunk, task in tasks] loop has awaited every task. *)
Definition loop_done (st : loop_state) : bool :=
  Nat.eqb (ls_awaiting st) (length (ls_tasks st)).

(** Turns a task can still take, and turns left in a run. *)
Definition task_work (ts : task_state) : nat :=
  match ts with
  | Waiting => Z.to_nat (max_retries self) + 2
  | Sleeping _ attempt => Z.to_nat (max_retries self - attempt) + 1
  | Finished _ => 0
  end.

Definition loop_work (st : loop_state) : nat :=
  list_sum (map (fun t => task_work (snd t)) (ls_tasks st))
  + (length (ls_tasks st) - ls_awaiting st).

Definition initial_loop (session : UploadSession) (max_concurrent : Z)
    (now : Q) (disk : gmap string pyval) : loop_state :=
  mkLoop now max_concurrent
         (map (fun pos => (pos, Waiting)) (pending_positions (chunks session)))
         session 0 [] disk.

(** [parallel_upload]: [asyncio.Semaphore] refuses a negative value; the
    result is the state in which the coroutine returns, or [None] when it
    never does. *)
Definition parallel_upload (session : UploadSession) (max_concurrent : Z)
    (now : Q) (disk : gmap string pyval) : result (option loop_state) :=
  if max_concurrent <? 0 then Raise ValueError
  else
    let st0 := initial_loop session max_concurrent now disk in
    let st := run (loop_work st0) st0 in
    Ok (if loop_done st then Some st else None).

(** Permits held: a task holds one while it sleeps inside the semaphore. *)
Definition holding (t : nat * task_state) : nat :=
  match snd t with Sleeping _ _ => 1 | _ => 0 end.

(** [session.progress_percentage] as line 327 computes it. *)
Definition percentage_of (cs : list ChunkInfo) : Q :=
  (inject_Z (uploaded_count cs) / inject_Z (Z.of_nat (length cs)) * 100)%Q.

(** What holds of the event loop all along a run of [parallel_upload] on
    [session] with [max_concurrent] permits and the session directory
    [disk]. *)
Record loop_inv (session : UploadSession) (max_concurrent : Z)
    (disk : gmap string pyval) (st : loop_state) : Prop := mkInv {
  inv_tasks : map fst (ls_tasks st) = pending_positions (chunks session);
  inv_length : length (chunks (ls_session st)) = length (chunks session);
  inv_awaiting : (ls_awaiting st <= length (ls_tasks st))%nat;
  inv_awaited : forall j, (j < ls_awaiting st)%nat ->
                  exists pos b, ls_tasks st !! j = Some (pos, Finished b);
  inv_permits : ls_permits st + Z.of_nat (list_sum (map holding (ls_tasks st)))
                = max_concurrent;
  inv_frame : forall p c, chunks session !! p = Some c -> uploaded c = true ->
                chunks (ls_session st) !! p = Some c;
  inv_attempted : forall p, p ∈ attempted (ls_trace st) ->
                    p ∈ pending_positions (chunks session);
  inv_started : 0 < max_retries self ->
                forall j pos ts, ls_tasks st !! j = Some (pos, ts) ->
                  ts <> Waiting -> pos ∈ attempted (ls_trace st);
  inv_disk : ls_disk st = disk;
  inv_completed : completed (ls_session st) = completed session;
  inv_progress : ls_awaiting st = length (ls_tasks st) ->
                 (0 < ls_awaiting st)%nat ->
                 progress_percentage (ls_session st)
                 = percentage_of (chunks (ls_session st))
}.

End Scheduler.

(** ** Resume and status report *)

(** [int(x)] of a float: truncation towards zero. *)
Definition int_of_float (x : Q) : Z :=
  if Qle_bool 0 x then Qfloor x else Qceiling x.

Definition Qlt_bool (x y : Q) : bool := negb (Qle_bool y x).

(** [timedelta(seconds=n)] keeps [n // 86400] days and accepts at most
    999999999 of them, either way. *)
Definition timedelta_in_range (n : Z) : bool := Z.abs (n / 86400) <=? 999999999.

Section Manager.

Variable isoformat : datetime -> string.
Variable fromisoformat : string -> result datetime.
Variable remote : list event -> Q -> ChunkInfo -> outcome.
Variable choose : list nat -> nat.

(** The text [str] gives for the [timedelta] of [n] seconds, when there is
    one. *)
Variable str_timedelta : Z -> string.

(** [str(timedelta(seconds=n))]: the constructor raises [OverflowError]
    when the days are out of range. *)
Definition timedelta_str (n : Z) : result string :=
  if timedelta_in_range n then Ok (str_timedelta n) else Raise OverflowError.

(** [resume_upload]: [detected] is what [analyze_network_speed] answers.
    The result is the manager, the value returned and the session object
    the call worked on; [None] when the call never returns. *)
Definition resume_upload (self : SmartUploadManager) (disk : gmap string pyval)
    (sid : string) (now : Q) (detected : speed_class)
    : result (option (SmartUploadManager * bool * option UploadSession)) :=
  loaded ← load_session fromisoformat disk sid;
  match loaded with
  | None => Ok (Some (self, false, None))
  | Some session =>
      let self := mkManager (max_retries self) (sessions self) detected in
      ran ← parallel_upload remote choose self session 3 now disk;
      match ran with
      | None => Ok None
      | Some st =>
          let session := ls_session st in
          if forallb uploaded (chunks session)
          then Ok (Some (self, true, Some (with_completed session true)))
          else Ok (Some (self, false, Some session))
      end
  end.

(** [get_session_status]; [now] is [datetime.now()]. Of the entries of the
    dictionary it returns, the two [str(timedelta(...))] can raise; they
    are evaluated in the order of the display. *)
Definition get_session_status (self : SmartUploadManager)
    (disk : gmap string pyval) (now : datetime) (sid : string)
    : result (list (string * pyval)) :=
  found ← match sessions self !! sid with
          | Some session => Ok (Some session)
          | None => load_session fromisoformat disk sid
          end;
  match found with
  | None => Ok [("error", PStr "Session not found")]
  | Some session =>
      let uploaded_chunks := uploaded_count (chunks session) in
      let failed_chunks :=
        Z.of_nat (length (List.filter
                            (fun c => max_retries self <=? retry_count c)
                            (chunks session))) in
      let elapsed_time := (inject_Z (now - start_time session) / 1000000)%Q in
      let uploaded_size :=
        fold_right Z.add 0 (map size (List.filter uploaded (chunks session))) in
      let eta_seconds :=
        if (0 <? uploaded_size) && Qlt_bool 0 elapsed_time then
          let upload_speed := (inject_Z uploaded_size / elapsed_time)%Q in
          let remaining_size := total_size session - uploaded_size in
          if Qlt_bool 0 upload_speed
          then (inject_Z remaining_size / upload_speed)%Q
          else 0%Q
        else 0%Q in
      elapsed_str ← timedelta_str (int_of_float elapsed_time);
      eta_str ← timedelta_str (int_of_float eta_seconds);
      Ok [("session_id", PStr (session_id session));
          ("repo_name", PStr (repo_name session));
          ("source_path", PStr (source_path session));
          ("total_chunks", PInt (Z.of_nat (length (chunks session))));
          ("uploaded_chunks", PInt uploaded_chunks);
          ("failed_chunks", PInt failed_chunks);
          ("progress_percentage", PFloat (progress_percentage session));
          ("total_size_mb", PFloat (inject_Z (total_size session) / inject_Z (1024 * 1024))%Q);
          ("uploaded_size_mb", PFloat (inject_Z uploaded_size / inject_Z (1024 * 1024))%Q);
          ("elapsed_time", PStr elapsed_str);
          ("eta", PStr eta_str);
          ("completed", PBool (completed session))]
  end.

End Manager.

(** ** The specification's vocabulary *)

(** The base chunk size of a network profile: 1, 5, 10 and 25 MiB. *)
Definition MiB : Z := 1048576.

Definition spec_base_chunk_size (s : speed_class) : Z :=
  match s with
  | slow => 1 * MiB
  | medium => 5 * MiB
  | fast => 10 * MiB
  | ultra => 25 * MiB
  end.

(** The adaptive rule: the base size up to 100 MiB, and
    [min(base * 2, 50 MiB)] above. *)
Definition spec_chunk_size (s : speed_class) (file_size : Z) : Z :=
  if file_size <=? 100 * MiB then spec_base_chunk_size s
  else Z.min (spec_base_chunk_size s * 2) (50 * MiB).

(** [ceil(fileSize / chunkSize)], the quotient taken in the rationals. *)
Definition spec_total_chunks (s : speed_class) (file_size : Z) : Z :=
  Qceiling (inject_Z file_size / inject_Z (spec_chunk_size s file_size)).

(** A rate-limit signal is followed, before its reset time, by a task
    entering the semaphore. *)
Fixpoint admitted_before (reset : Q) (tr : list event) : bool :=
  match tr with
  | [] => false
  | EvAcquire _ t :: tr' => Qlt_bool t reset || admitted_before reset tr'
  | _ :: tr' => admitted_before reset tr'
  end.

Fixpoint admits_under_rate_limit (tr : list event) : bool :=
  match tr with
  | [] => false
  | EvAttempt _ _ _ (RateLimited reset) :: tr' =>
      admitted_before reset tr' || admits_under_rate_limit tr'
  | _ :: tr' => admits_under_rate_limit tr'
  end.

(** The event loop that runs what became ready first. *)
Definition fifo (l : list nat) : nat := hd 0%nat l.

(** ** Data for worked examples *)

(** A digest: every block hashes to the same text. *)
Definition constant_digest : string -> extent -> string := fun _ _ => "00".

(** [isoformat] and [fromisoformat] at the first instant of the calendar. *)
Definition first_instant_isoformat (d : datetime) : string :=
  "0001-01-01T00:00:00".

Definition first_instant_fromisoformat (s : string) : result datetime :=
  if String.eqb s "0001-01-01T00:00:00" then Ok 0 else Raise ValueError.

(** [str(timedelta(seconds=n))] for spans under a minute. *)
Definition short_str_timedelta (n : Z) : string :=
  "0:00:" ++ (if n <? 10 then "0" else "") ++ str_of_int n.

(** A session over a file of 2 MiB planned under the slow profile. *)
Definition example_chunk (i : Z) (up : bool) : ChunkInfo :=
  mkChunkInfo ("s1_a.bin_" ++ str_of_int i) "a.bin" i 2 MiB "00"
              up (if up then Some 1%Q else None) 0.

Definition example_session (cs : list ChunkInfo) : UploadSession :=
  mkUploadSession "s1" "me/backup" "a.bin" (2 * MiB) cs 0 false 0.

Definition example_manager (reg : gmap string UploadSession) : SmartUploadManager :=
  mkManager 3 reg medium.

(** A remote side that accepts every request. *)
Definition always_success : list event -> Q -> ChunkInfo -> outcome :=
  fun _ _ _ => Success.

(** A remote side that, before time 100, throttles the chunk of index 0
    until time 100, and accepts every other request. *)
Definition throttle_first : list event -> Q -> ChunkInfo -> outcome :=
  fun _ now c =>
    if (chunk_index c =? 0) && Qlt_bool now 100 then RateLimited 100
    else Success.

(** ** Reading a run off its events *)

(** The outcomes of the attempts made for the chunk at position [p], in
    order. *)
Definition outcomes_of (p : nat) (tr : list event) : list outcome :=
  flat_map (fun e => match e with
                     | EvAttempt q _ _ o => if Nat.eqb q p then [o] else []
                     | _ => []
                     end) tr.

Definition is_success (o : outcome) : bool :=
  match o with Success => true | _ => false end.

Definition is_error (o : outcome) : bool :=
  match o with OtherError => true | _ => false end.

(** What a task, the chunk it was created for ([c0]), that chunk now ([c])
    and the outcomes of the attempts made for it have to do with each
    other. *)
Definition task_fact (self : SmartUploadManager) (ts : task_state)
    (c0 c : ChunkInfo) (os : list outcome) : Prop :=
  chunk_id c = chunk_id c0 /\ file_path c = file_path c0 /\
  chunk_index c = chunk_index c0 /\ total_chunks c = total_chunks c0 /\
  size c = size c0 /\ checksum c = checksum c0 /\
  retry_count c = retry_count c0 + Z.of_nat (length (List.filter is_error os)) /\
  uploaded c = existsb is_success os /\
  (uploaded c = false -> upload_time c = upload_time c0) /\
  match ts with
  | Waiting => os = []
  | Sleeping _ k =>
      Z.of_nat (length os) = k /\ k <= max_retries self /\ uploaded c = false
  | Finished b =>
      Z.of_nat (length os) <= Z.max 0 (max_retries self) /\ uploaded c = b /\
      (b = false -> Z.of_nat (length os) = Z.max 0 (max_retries self))
  end.

(** Every attempt on record ended the way the remote side decided. *)
Definition answered_by (remote : list event -> Q -> ChunkInfo -> outcome)
    (e : event) : Prop :=
  match e with
  | EvAttempt _ _ t o => exists history c, remote history t c = o
  | _ => True
  end.

(** What holds besides [loop_inv] along a run on [session]: the semaphore
    never goes below zero, no two tasks share a chunk, every attempt ended
    as the remote side decided, the session keeps its identifier, target,
    source, total size and start time, and every task stands to its chunk
    and its attempts as [task_fact] says. *)
Record loop_facts (remote : list event -> Q -> ChunkInfo -> outcome)
    (self : SmartUploadManager) (session : UploadSession)
    (st : loop_state) : Prop := mkFacts {
  lf_permits : 0 <= ls_permits st;
  lf_nodup : NoDup (map fst (ls_tasks st));
  lf_remote : Forall (answered_by remote) (ls_trace st);
  lf_identity : session_id (ls_session st) = session_id session /\
                repo_name (ls_session st) = repo_name session /\
                source_path (ls_session st) = source_path session /\
                total_size (ls_session st) = total_size session /\
                start_time (ls_session st) = start_time session;
  lf_task : forall j pos ts, ls_tasks st !! j = Some (pos, ts) ->
              exists c0 c,
                chunks session !! pos = Some c0 /\
                chunks (ls_session st) !! pos = Some c /\
                task_fact self ts c0 c (outcomes_of pos (ls_trace st))
}.

(** ** Network probe *)

(** The thresholds of [analyze_network_speed] on the measured MB/s. *)
Definition classify_speed (speed_mbps : Q) : speed_class :=
  if Qlt_bool speed_mbps 1 then slow
  else if Qlt_bool speed_mbps 5 then medium
  else if Qlt_bool speed_mbps 20 then fast
  else ultra.

(** [analyze_network_speed]: [probe] is the time the test upload of 100 KB
    took, or [None] when the request raised. A division by a zero time
    raises, and every exception ends in ['medium']. *)
Definition analyze_network_speed (probe : option Q) : speed_class :=
  match probe with
  | Some elapsed =>
      let test_size := 1024 * 100 in
      if Qeq_bool elapsed 0 then medium
      else classify_speed
             ((inject_Z test_size / elapsed) / inject_Z (1024 * 1024))%Q
  | None => medium
  end.

(** ** Repository analysis *)

Definition COMPRESSIBLE_EXTENSIONS : list string :=
  [".txt"; ".md"; ".py"; ".js"; ".ts"; ".html"; ".css"; ".json"; ".xml";
   ".yml"; ".yaml"].

Definition SKIP_EXTENSIONS : list string :=
  [".pyc"; ".pyo"; ".pyd"; ".so"; ".dylib"; ".dll"; ".exe"].

Definition BINARY_EXTENSIONS : list string :=
  [".jpg"; ".jpeg"; ".png"; ".gif"; ".mp4"; ".mov"; ".avi"; ".zip"; ".tar";
   ".gz"].

(** [ext in SET] *)
Definition ext_in (ext : string) (set : list string) : bool :=
  existsb (String.eqb ext) set.

(** [name.rfind('.')], counting from [i]. *)
Fixpoint rfind_dot (name : string) (i : nat) : option nat :=
  match name with
  | EmptyString => None
  | String c rest =>
      match rfind_dot rest (S i) with
      | Some j => Some j
      | None => if Ascii.eqb c (Ascii.ascii_of_nat 46) then Some i else None
      end
  end.

(** [Path(p).suffix]: the last dot of the name and what follows, unless
    that dot starts or ends the name. *)
Definition path_suffix (p : string) : string :=
  let name := path_name p in
  match rfind_dot name 0 with
  | Some i =>
      if Nat.ltb 0 i && Nat.ltb i (String.length name - 1)
      then String.substring i (String.length name - i) name
      else ""
  | None => ""
  end.

(** [str.lower] on the letters A to Z. *)
Definition lower_ascii (c : Ascii.ascii) : Ascii.ascii :=
  let n := Ascii.nat_of_ascii c in
  if Nat.leb 65 n && Nat.leb n 90 then Ascii.ascii_of_nat (n + 32) else c.

Fixpoint str_lower (s : string) : string :=
  match s with
  | EmptyString => EmptyString
  | String c rest => String (lower_ascii c) (str_lower rest)
  end.

(** The dictionary [stats] of [analyze_repository]. *)
Module Stats.
Record t := mk {
  total_files : Z;
  total_size : Z;
  compressible_size : Z;
  binary_size : Z;
  skip_files : list string;
  large_files : list (string * Z);
  git_objects_size : Z;
  recommendations : list string
}.
End Stats.

(** The body of the loop over the files (lines 153-173) for a file of the
    given size. *)
Definition analyze_file (stats : Stats.t) (file_path : string) (size : Z)
    : Stats.t :=
  let ext := str_lower (path_suffix file_path) in
  let skip := ext_in ext SKIP_EXTENSIONS in
  let compressible := negb skip && ext_in ext COMPRESSIBLE_EXTENSIONS in
  let binary := negb skip && negb compressible && ext_in ext BINARY_EXTENSIONS in
  Stats.mk
    (Stats.total_files stats + 1)
    (Stats.total_size stats + size)
    (if compressible then Stats.compressible_size stats + size
     else Stats.compressible_size stats)
    (if binary then Stats.binary_size stats + size else Stats.binary_size stats)
    (if skip then Stats.skip_files stats ++ [file_path] else Stats.skip_files stats)
    (if 50 * 1024 * 1024 <? size
     then Stats.large_files stats ++ [(file_path, size)]
     else Stats.large_files stats)
    (Stats.git_objects_size stats)
    (Stats.recommendations stats).

(** The loop over [repo_path.rglob] (lines 151-176): an entry that is not a
    regular file is passed over. *)
Fixpoint analyze_files (fs : gmap string Z) (stats : Stats.t)
    (entries : list string) : Stats.t :=
  match entries with
  | [] => stats
  | file_path :: rest =>
      match fs !! file_path with
      | Some size => analyze_files fs (analyze_file stats file_path size) rest
      | None => analyze_files fs stats rest
      end
  end.

(** Lines 178-186. *)
Definition recommend (stats : Stats.t) : Stats.t :=
  let r1 :=
    if Qlt_bool (inject_Z (Stats.total_size stats) * (1 # 2))
                (inject_Z (Stats.git_objects_size stats))
    then ["Consider running 'git gc' to optimize repository size"] else [] in
  let r2 :=
    if Qlt_bool (inject_Z (Stats.total_size stats) * (3 # 10))
                (inject_Z (Stats.compressible_size stats))
    then ["Repository has significant compressible content - will use compression"]
    else [] in
  let r3 :=
    if Nat.ltb 0 (length (Stats.large_files stats))
    then [("Found " ++ str_of_int (Z.of_nat (length (Stats.large_files stats)))
             ++ " large files - will use adaptive chunking")%string]
    else [] in
  Stats.mk (Stats.total_files stats) (Stats.total_size stats)
           (Stats.compressible_size stats) (Stats.binary_size stats)
           (Stats.skip_files stats) (Stats.large_files stats)
           (Stats.git_objects_size stats)
           (Stats.recommendations stats ++ r1 ++ r2 ++ r3).

(** [analyze_repository]: [tree] gives, for a directory, what its [rglob]
    yields, in order; [git_size] is the size of the git objects lines
    140-148 find (0 when the path is no git repository). *)
Definition analyze_repository (fs : gmap string Z)
    (tree : gmap string (list string)) (git_size : Z) (repo_path : string)
    : Stats.t :=
  let stats := Stats.mk 0 0 0 0 [] [] git_size [] in
  let entries := match tree !! repo_path with Some l => l | None => [] end in
  recommend (analyze_files fs stats entries).

(** ** Session creation *)

Section Creation.

Variable sha256_hexdigest : string -> extent -> string.
Variable isoformat : datetime -> string.

(** The first 16 digits of the SHA-256 of the source path and the time. *)
Variable session_id_of : string -> datetime -> string.

(** Lines 140-148 for a directory. *)
Variable git_objects_size_of : string -> Z.

(** [compress_directory]: the path and the size of the archive it writes. *)
Variable compress_directory : string -> string * Z.

(** The chunks of the files a directory holds (lines 350-352). *)
Fixpoint chunk_files (speed : speed_class) (fs : gmap string Z)
    (session : string) (entries : list string) : result (list ChunkInfo) :=
  match entries with
  | [] => Ok []
  | file_path :: rest =>
      match fs !! file_path with
      | Some _ =>
          cs ← create_smart_chunks sha256_hexdigest speed fs file_path session;
          more ← chunk_files speed fs session rest;
          Ok (cs ++ more)
      | None => chunk_files speed fs session rest
      end
  end.

(** [create_upload_session]: [now1] and [now2] are what the two calls of
    [datetime.now()] answer. The result is the manager, the file system
    (with the archive, if one was written), the session directory and the
    session. *)
Definition create_upload_session (self : SmartUploadManager)
    (fs : gmap string Z) (tree : gmap string (list string))
    (disk : gmap string pyval) (now1 now2 : datetime)
    (source_path repo_name : string)
    : result (SmartUploadManager * gmap string Z * gmap string pyval
              * UploadSession) :=
  let session_id := session_id_of source_path now1 in
  let '(source_path, fs) :=
    match tree !! source_path with
    | Some _ =>
        let stats := analyze_repository fs tree (git_objects_size_of source_path)
                                        source_path in
        if 10 * 1024 * 1024 <? Stats.compressible_size stats
        then let '(compressed_path, archive_size) :=
               compress_directory source_path in
             (compressed_path, <[compressed_path := archive_size]> fs)
        else (source_path, fs)
    | None => (source_path, fs)
    end in
  chunks ← match fs !! source_path with
           | Some _ =>
               create_smart_chunks sha256_hexdigest (network_speed self) fs
                                   source_path session_id
           | None =>
               chunk_files (network_speed self) fs session_id
                 (match tree !! source_path with Some l => l | None => [] end)
           end;
  let session :=
    mkUploadSession session_id repo_name source_path
                    (fold_right Z.add 0 (map size chunks)) chunks now2 false 0 in
  let self := mkManager (max_retries self)
                        (<[session_id := session]> (sessions self))
                        (network_speed self) in
  disk ← save_session isoformat disk session;
  Ok (self, fs, disk, session).

End Creation.

(** The regular files among the entries of a listing, with their sizes. *)
Definition regular_files (fs : gmap string Z) (entries : list string)
    : list (string * Z) :=
  flat_map (fun f => match fs !! f with Some sz => [(f, sz)] | None => [] end)
           entries.

Definition sum_sizes (files : list (string * Z)) : Z :=
  fold_right Z.add 0 (map snd files).

Definition is_large (file : string * Z) : bool := 50 * 1024 * 1024 <? snd file.

(** A chunk as the planner makes it: not uploaded, never retried. *)
Definition fresh (c : ChunkInfo) : Prop :=
  uploaded c = false /\ retry_count c = 0 /\ upload_time c = None.

(** [sum(c.size for c in session.chunks if c.uploaded)] *)
Definition uploaded_size (session : UploadSession) : Z :=
  fold_right Z.add 0 (map size (List.filter uploaded (chunks session))).

(** [(datetime.now() - session.start_time).total_seconds()] *)
Definition elapsed_seconds (now : datetime) (session : UploadSession) : Q :=
  (inject_Z (now - start_time session) / 1000000)%Q.

(** [eta_seconds] as lines 433-442 compute it. *)
Definition eta_seconds (now : datetime) (session : UploadSession) : Q :=
  let elapsed_time := elapsed_seconds now session in
  let uploaded_size := uploaded_size session in
  if (0 <? uploaded_size) && Qlt_bool 0 elapsed_time then
    let upload_speed := (inject_Z uploaded_size / elapsed_time)%Q in
    let remaining_size := total_size session - uploaded_size in
    if Qlt_bool 0 upload_speed
    then (inject_Z remaining_size / upload_speed)%Q
    else 0%Q
  else 0%Q.

(** A session identifier, a directory without git objects and an archive
    for worked examples of session creation. *)
Definition example_session_id : string -> datetime -> string := fun _ _ => "s1".

Definition no_git_objects : string -> Z := fun _ => 0.

Definition example_archive : string -> string * Z :=
  fun _ => ("backup.tar.gz", 1024).

(** A remote side that refuses every request. *)
Definition always_error : list event -> Q -> ChunkInfo -> outcome :=
  fun _ _ _ => OtherError.

(** ** Waiting between attempts *)

(** An attempt made at time [t] as iteration [attempt] of the retry loop,
    and that ended in [o], keeps its task from trying again before [u]: the
    back-off of [2 ** attempt] seconds after an error, the reset time after
    a rate limit. *)
Definition not_before (attempt : Z) (t : Q) (o : outcome) (u : Q) : Prop :=
  (t <= u)%Q /\
  match o with
  | OtherError => (t + inject_Z (2 ^ attempt) <= u)%Q
  | RateLimited reset => (reset <= u)%Q
  | Success => True
  end.

(** Two events of a run, the first before the second: when both are
    attempts for the same chunk, the second comes after the wait the first
    asks for. *)
Definition spaced (e e' : event) : Prop :=
  match e, e' with
  | EvAttempt p k t o, EvAttempt p' _ t' _ => p = p' -> not_before k t o t'
  | _, _ => True
  end.

Fixpoint well_spaced (tr : list event) : Prop :=
  match tr with
  | [] => True
  | e :: rest => Forall (spaced e) rest /\ well_spaced rest
  end.

(** The task of the chunk at [pos] sleeps until [u]: no attempt on record
    for the chunk asks for a longer wait. *)
Definition rests_until (pos : nat) (u : Q) (e : event) : Prop :=
  match e with
  | EvAttempt p k t o => p = pos -> not_before k t o u
  | _ => True
  end.

Record loop_timing (st : loop_state) : Prop := mkTiming {
  lt_spaced : well_spaced (ls_trace st);
  lt_sleep : forall j pos u k, ls_tasks st !! j = Some (pos, Sleeping u k) ->
               Forall (rests_until pos u) (ls_trace st)
}.

(** A session over a directory that holds a file of one byte and a file of
    50 GiB, planned under the ultra profile (chunks of 50 MiB): the chunk
    of the small file is uploaded, the 1024 chunks of the large one are
    not. *)
Definition slow_session : UploadSession :=
  mkUploadSession "s1" "me/backup" "d" (1 + 50 * 1024 * MiB)
    (mkChunkInfo "s1_tiny.txt_0" "d/tiny.txt" 0 1 1 "00" true (Some 1%Q) 0
       :: map snd (plan_reads constant_digest ultra (50 * 1024 * MiB)
                              "d/big.bin" "s1"))
    0 false (100 # 1025).

(** Half an hour after the first instant. *)
Definition half_hour_later : datetime := 1800 * 1000000.

(** * Properties *)

(** ** Lists and arithmetic *)

Lemma lookup_map {A B} (f : A -> B) (l : list A) (i : nat) :
  map f l !! i = f <$> (l !! i).
Proof.
  revert i; induction l as [|a l IH]; intros [|i]; simpl; auto.
Qed.

Lemma CHUNK_SIZES_spec s : CHUNK_SIZES s = spec_base_chunk_size s.
Proof. destruct s; reflexivity. Qed.

Lemma planned_chunk_size_pos speed file_size :
  0 < planned_chunk_size speed file_size.
Proof.
  unfold planned_chunk_size.
  destruct (100 * 1024 * 1024 <? file_size); destruct speed; simpl; lia.
Qed.

Lemma ceil_div_bounds a b :
  0 < b -> 0 <= a ->
  0 <= (a + b - 1) / b /\
  ((a + b - 1) / b) * b - b < a <= ((a + b - 1) / b) * b.
Proof.
  intros Hb Ha.
  pose proof (Z.div_mod (a + b - 1) b ltac:(lia)) as Hdm.
  pose proof (Z.mod_pos_bound (a + b - 1) b Hb) as Hm.
  assert (0 <= (a + b - 1) / b) by (apply Z.div_pos; lia).
  nia.
Qed.

(** ** Chunk planner *)

Section PlannerFacts.

Variable digest : string -> extent -> string.

Lemma chunk_reads_length session path cs nc n i f :
  length (chunk_reads digest session path cs nc n i f) = n.
Proof.
  revert i f; induction n as [|n IH]; intros i f; simpl; [reflexivity|].
  f_equal; apply IH.
Qed.

(** What iteration [k] of the planning loop reads and records, when [n]
    reads of [cs] bytes are what it takes to reach the end of the file. *)
Lemma chunk_reads_lookup session path cs nc n :
  forall i file_size pos k e c,
    0 < cs -> 0 <= file_size - pos ->
    Z.of_nat n * cs - cs < file_size - pos <= Z.of_nat n * cs ->
    chunk_reads digest session path cs nc n i (mkHandle file_size pos) !! k
      = Some (e, c) ->
    ext_offset e = pos + Z.of_nat k * cs /\
    ext_length e = Z.min cs (file_size - pos - Z.of_nat k * cs) /\
    0 < ext_length e /\
    chunk_index c = i + Z.of_nat k /\
    total_chunks c = nc /\
    size c = ext_length e /\
    checksum c = digest path e /\
    file_path c = path /\
    uploaded c = false.
Proof.
  induction n as [|n IH]; intros i file_size pos k e c Hcs Hrem Hn Hk.
  - destruct k; discriminate.
  - cbn [chunk_reads f_read h_size h_pos] in Hk.
    assert (Hlt : (cs <? 0) = false) by (apply Z.ltb_ge; lia).
    rewrite Hlt in Hk.
    replace (Z.max 0 (file_size - pos)) with (file_size - pos) in Hk by lia.
    destruct k as [|k]; simpl in Hk.
    + inversion Hk; subst; clear Hk; simpl.
      repeat split; try lia.
    + assert (Hn' : (0 < length (chunk_reads digest session path cs nc n (i + 1)
                        (mkHandle file_size (pos + Z.min cs (file_size - pos)))))%nat)
        by (apply lookup_lt_Some in Hk; lia).
      rewrite chunk_reads_length in Hn'.
      assert (Hfull : cs <= file_size - pos) by nia.
      rewrite Z.min_l in Hk by lia.
      apply IH in Hk; [|lia|lia|lia].
      destruct Hk as (Ho & Hl & Hp & Hi & Hrest).
      repeat split; try tauto; lia.
Qed.

Lemma chunk_reads_total session path cs nc n :
  forall i file_size pos,
    0 < cs -> 0 <= file_size - pos ->
    Z.of_nat n * cs - cs < file_size - pos <= Z.of_nat n * cs ->
    fold_right Z.add 0
      (map size (map snd (chunk_reads digest session path cs nc n i
                                      (mkHandle file_size pos))))
      = file_size - pos.
Proof.
  induction n as [|n IH]; intros i file_size pos Hcs Hrem Hn.
  - simpl; lia.
  - cbn [chunk_reads f_read h_size h_pos].
    assert (Hlt : (cs <? 0) = false) by (apply Z.ltb_ge; lia).
    rewrite Hlt.
    replace (Z.max 0 (file_size - pos)) with (file_size - pos) by lia.
    simpl. rewrite IH; nia.
Qed.

Lemma plan_reads_bounds speed file_size :
  0 <= file_size ->
  let cs := planned_chunk_size speed file_size in
  let n := Z.to_nat (planned_num_chunks speed file_size) in
  Z.of_nat n * cs - cs < file_size - 0 <= Z.of_nat n * cs.
Proof.
  intros Hsz cs n.
  pose proof (planned_chunk_size_pos speed file_size) as Hcs.
  destruct (ceil_div_bounds file_size cs Hcs Hsz) as [Hq Hb].
  subst n. unfold planned_num_chunks. fold cs.
  rewrite Z2Nat.id by exact Hq. lia.
Qed.

Lemma Qceiling_div a b :
  0 < b -> 0 <= a ->
  Qceiling (inject_Z a / inject_Z b) = (a + b - 1) / b.
Proof.
  intros Hb Ha. unfold Qceiling.
  assert (Heq : (- (inject_Z a / inject_Z b) == inject_Z (- a) / inject_Z b)%Q).
  { rewrite inject_Z_opp. field. intros H0.
    apply (Qeq_bool_neq (inject_Z b) 0); [|exact H0].
    unfold Qeq_bool, inject_Z; simpl. apply Z.eqb_neq. lia. }
  rewrite Heq, <- Zdiv_Qdiv.
  destruct (ceil_div_bounds a b Hb Ha) as [Hq Hbd].
  assert (H : (- a) / b = - ((a + b - 1) / b)).
  { symmetry.
    apply (Z.div_unique (- a) b _ (- a + b * ((a + b - 1) / b))); lia. }
  rewrite H. lia.
Qed.

(** C7. For every file of nonzero size the chunks [create_smart_chunks]
    returns tile the file: the indices are 0, 1, ... in order, every
    [total_chunks] is the length of the list, the sizes add up to the file
    size, every chunk but the last has the chosen chunk size, and the last
    chunk has a size above zero and at most the chunk size. *)
Theorem create_smart_chunks_tiles_file speed (fs : gmap string Z) path session file_size :
  fs !! path = Some file_size -> 0 < file_size ->
  exists chunks,
    create_smart_chunks digest speed fs path session = Ok chunks /\
    (forall k c, chunks !! k = Some c -> chunk_index c = Z.of_nat k) /\
    (forall k c, chunks !! k = Some c -> total_chunks c = Z.of_nat (length chunks)) /\
    fold_right Z.add 0 (map size chunks) = file_size /\
    (forall k c, chunks !! k = Some c -> (S k < length chunks)%nat ->
                 size c = planned_chunk_size speed file_size) /\
    (exists c, last chunks = Some c /\
               0 < size c <= planned_chunk_size speed file_size).
Proof.
  intros Hfs Hsz. unfold create_smart_chunks. rewrite Hfs.
  eexists; split; [reflexivity|].
  pose proof (planned_chunk_size_pos speed file_size) as Hcs.
  pose proof (plan_reads_bounds speed file_size ltac:(lia)) as Hb; cbv zeta in Hb.
  unfold plan_reads, f_open.
  set (cs := planned_chunk_size speed file_size) in *.
  set (nc := planned_num_chunks speed file_size) in *.
  set (l := chunk_reads digest session path cs nc (Z.to_nat nc) 0 (mkHandle file_size 0)).
  assert (Hlen : length (map snd l) = Z.to_nat nc)
    by (rewrite length_map; apply chunk_reads_length).
  assert (Hnc : Z.of_nat (Z.to_nat nc) = nc).
  { apply Z2Nat.id. unfold nc, planned_num_chunks. fold cs.
    apply Z.div_pos; lia. }
  assert (Hlook : forall k c, map snd l !! k = Some c ->
            exists e, l !! k = Some (e, c)).
  { intros k c Hk. rewrite lookup_map in Hk.
    destruct (l !! k) as [[e c']|] eqn:E; simpl in Hk; [|discriminate].
    inversion Hk; subst. eauto. }
  repeat split.
  - intros k c Hk. destruct (Hlook k c Hk) as [e He].
    apply chunk_reads_lookup in He; [|lia..]. lia.
  - intros k c Hk. destruct (Hlook k c Hk) as [e He].
    apply chunk_reads_lookup in He; [|lia..]. rewrite Hlen. lia.
  - unfold l. rewrite chunk_reads_total; lia.
  - intros k c Hk Hlast. destruct (Hlook k c Hk) as [e He].
    apply chunk_reads_lookup in He; [|lia..].
    rewrite Hlen in Hlast. nia.
  - assert (Hpos : (0 < Z.to_nat nc)%nat) by nia.
    rewrite last_lookup, Hlen.
    destruct (map snd l !! Nat.pred (Z.to_nat nc)) as [c|] eqn:E.
    + exists c; split; [reflexivity|].
      destruct (Hlook _ c E) as [e He].
      apply chunk_reads_lookup in He; [|lia..]. lia.
    + apply lookup_ge_None in E. lia.
Qed.

(** C8. The chunk size the planner reads with is the base size of the
    profile (1, 5, 10, 25 MiB) up to 100 MiB and [min(base * 2, 50 MiB)]
    above, the number of chunks is [ceil(fileSize / chunkSize)], and a
    150 MiB file under the fast profile gives 8 chunks, seven of 20 MiB and
    a last one of 10 MiB. *)
Theorem planner_follows_adaptive_rule speed (fs : gmap string Z) path session file_size :
  fs !! path = Some file_size -> 0 <= file_size ->
  exists chunks,
    create_smart_chunks digest speed fs path session = Ok chunks /\
    planned_chunk_size speed file_size = spec_chunk_size speed file_size /\
    Z.of_nat (length chunks) = spec_total_chunks speed file_size /\
    (speed = fast -> file_size = 150 * MiB ->
     map size chunks
       = [20 * MiB; 20 * MiB; 20 * MiB; 20 * MiB; 20 * MiB; 20 * MiB; 20 * MiB;
          10 * MiB]).
Proof.
  intros Hfs Hsz. unfold create_smart_chunks. rewrite Hfs.
  eexists; split; [reflexivity|].
  assert (Hcs : planned_chunk_size speed file_size = spec_chunk_size speed file_size).
  { unfold planned_chunk_size, spec_chunk_size.
    rewrite CHUNK_SIZES_spec.
    change (100 * 1024 * 1024) with (100 * MiB).
    change (50 * 1024 * 1024) with (50 * MiB).
    destruct (Z.ltb_spec (100 * MiB) file_size), (Z.leb_spec file_size (100 * MiB));
      try reflexivity; lia. }
  split; [exact Hcs|]. split.
  - rewrite length_map. unfold plan_reads. rewrite chunk_reads_length.
    pose proof (planned_chunk_size_pos speed file_size) as Hpos.
    unfold spec_total_chunks. rewrite <- Hcs.
    rewrite Qceiling_div by lia.
    rewrite Z2Nat.id; [reflexivity|].
    unfold planned_num_chunks. apply Z.div_pos; lia.
  - intros -> ->. vm_compute. reflexivity.
Qed.

(** C6, as the code has it. Planning an empty file raises nothing and
    returns the empty list of chunks (so no chunk of size zero either);
    planning a path that cannot be stat'd raises the error of [stat]. *)
Theorem create_smart_chunks_empty_or_missing speed (fs : gmap string Z) path session :
  (fs !! path = Some 0 ->
   create_smart_chunks digest speed fs path session = Ok []) /\
  (fs !! path = None ->
   create_smart_chunks digest speed fs path session = Raise FileNotFoundError).
Proof.
  unfold create_smart_chunks; split; intros ->; [|reflexivity].
  destruct speed; reflexivity.
Qed.

(** Up to 100 MiB, and under the network speed the plan was made with, the
    uploader reads the block that was planned. *)
Lemma upload_read_agrees_up_to_100MiB speed (fs : gmap string Z) path session file_size k e c :
  fs !! path = Some file_size -> 0 <= file_size <= 100 * MiB ->
  plan_reads digest speed file_size path session !! k = Some (e, c) ->
  upload_read speed fs c = Ok e.
Proof.
  intros Hfs Hsz Hk.
  pose proof (planned_chunk_size_pos speed file_size) as Hcs.
  pose proof (plan_reads_bounds speed file_size ltac:(lia)) as Hb; cbv zeta in Hb.
  assert (Hbase : planned_chunk_size speed file_size = CHUNK_SIZES speed).
  { unfold planned_chunk_size.
    destruct (Z.ltb_spec (100 * 1024 * 1024) file_size); [|reflexivity].
    unfold MiB in Hsz; lia. }
  unfold plan_reads, f_open in Hk.
  apply chunk_reads_lookup in Hk; [|lia..].
  destruct Hk as (Ho & Hl & Hp & Hi & _ & Hs & _ & Hpath & _).
  unfold upload_read. rewrite Hpath, Hfs.
  unfold f_seek, f_open, f_read; cbn [h_size h_pos fst].
  rewrite Hi, Hs, <- Hbase.
  assert (Hlt : (ext_length e <? 0) = false) by (apply Z.ltb_ge; lia).
  rewrite Hlt. destruct e as [off len]; simpl in *. f_equal. f_equal; lia.
Qed.

End PlannerFacts.

(** ** Chunk planner: worked inputs *)

Lemma create_smart_chunks_tiles_file_witness :
  let fs : gmap string Z := {[ "video.bin" := 15 * MiB ]} in
  fs !! "video.bin" = Some (15 * MiB) /\ 0 < 15 * MiB /\
  exists chunks,
    create_smart_chunks constant_digest medium fs "video.bin" "s1" = Ok chunks /\
    (forall k c, chunks !! k = Some c -> chunk_index c = Z.of_nat k) /\
    (forall k c, chunks !! k = Some c -> total_chunks c = Z.of_nat (length chunks)) /\
    fold_right Z.add 0 (map size chunks) = 15 * MiB /\
    (forall k c, chunks !! k = Some c -> (S k < length chunks)%nat ->
                 size c = planned_chunk_size medium (15 * MiB)) /\
    (exists c, last chunks = Some c /\
               0 < size c <= planned_chunk_size medium (15 * MiB)).
Proof.
  split; [reflexivity|]. split; [reflexivity|].
  apply (create_smart_chunks_tiles_file constant_digest medium
           {[ "video.bin" := 15 * MiB ]} "video.bin" "s1" (15 * MiB));
    reflexivity.
Defined.

Lemma planner_follows_adaptive_rule_witness :
  let fs : gmap string Z := {[ "big.bin" := 150 * MiB ]} in
  fs !! "big.bin" = Some (150 * MiB) /\ 0 <= 150 * MiB /\
  exists chunks,
    create_smart_chunks constant_digest fast fs "big.bin" "s1" = Ok chunks /\
    planned_chunk_size fast (150 * MiB) = spec_chunk_size fast (150 * MiB) /\
    Z.of_nat (length chunks) = spec_total_chunks fast (150 * MiB) /\
    (fast = fast -> 150 * MiB = 150 * MiB ->
     map size chunks
       = [20 * MiB; 20 * MiB; 20 * MiB; 20 * MiB; 20 * MiB; 20 * MiB; 20 * MiB;
          10 * MiB]).
Proof.
  split; [reflexivity|]. split; [discriminate|].
  apply (planner_follows_adaptive_rule constant_digest fast
           {[ "big.bin" := 150 * MiB ]} "big.bin" "s1" (150 * MiB));
    [reflexivity | discriminate].
Defined.

(** C6, as the specification states it, fails: an empty file is planned
    without any error. *)
Lemma empty_file_is_planned_without_error :
  let fs : gmap string Z := {[ "empty.bin" := 0 ]} in
  fs !! "empty.bin" = Some 0 /\
  create_smart_chunks constant_digest medium fs "empty.bin" "s1" = Ok [] /\
  forall e, create_smart_chunks constant_digest medium fs "empty.bin" "s1" <> Raise e.
Proof.
  split; [reflexivity|]. split; [reflexivity|]. intros e; discriminate.
Qed.

Lemma create_smart_chunks_empty_or_missing_witness :
  let fs : gmap string Z := {[ "empty.bin" := 0 ]} in
  (fs !! "empty.bin" = Some 0 /\ fs !! "gone.bin" = None) /\
  create_smart_chunks constant_digest slow fs "empty.bin" "s1" = Ok [] /\
  create_smart_chunks constant_digest slow fs "gone.bin" "s1" = Raise FileNotFoundError.
Proof.
  split; [split; reflexivity|]. split.
  - apply (create_smart_chunks_empty_or_missing constant_digest slow
             {[ "empty.bin" := 0 ]} "empty.bin" "s1"); reflexivity.
  - apply (create_smart_chunks_empty_or_missing constant_digest slow
             {[ "empty.bin" := 0 ]} "gone.bin" "s1"); reflexivity.
Defined.

(** C1 at a file of 150 MiB under the fast profile: the second chunk was
    read and checksummed at plan time from byte 20 MiB on, and the uploader
    reads its 20 MiB from byte 10 MiB on. *)
Theorem upload_reads_unplanned_range_of_large_file :
  let fs : gmap string Z := {[ "big.bin" := 150 * MiB ]} in
  exists chunks planned chunk,
    create_smart_chunks constant_digest fast fs "big.bin" "s1" = Ok chunks /\
    chunks !! 1%nat = Some chunk /\
    plan_reads constant_digest fast (150 * MiB) "big.bin" "s1" !! 1%nat
      = Some (planned, chunk) /\
    planned = mkExtent (20 * MiB) (20 * MiB) /\
    upload_read fast fs chunk = Ok (mkExtent (10 * MiB) (20 * MiB)) /\
    upload_read fast fs chunk <> Ok planned.
Proof.
  cbv zeta. unfold create_smart_chunks.
  assert (E : ({[ "big.bin" := 150 * MiB ]} : gmap string Z) !! "big.bin"
              = Some (150 * MiB)) by reflexivity.
  rewrite E.
  eexists; eexists; eexists.
  split; [reflexivity|]. split; [reflexivity|]. split; [reflexivity|].
  split; [reflexivity|].
  split; [vm_compute; reflexivity | vm_compute; discriminate].
Qed.

(** The same after a resume that detects another network speed: a chunk
    planned under the medium profile at byte 5 MiB is read at byte 10 MiB
    once the speed is fast. *)
Lemma upload_reads_unplanned_range_after_speed_change :
  let fs : gmap string Z := {[ "video.bin" := 15 * MiB ]} in
  exists planned chunk,
    plan_reads constant_digest medium (15 * MiB) "video.bin" "s1" !! 1%nat
      = Some (planned, chunk) /\
    planned = mkExtent (5 * MiB) (5 * MiB) /\
    upload_read fast fs chunk = Ok (mkExtent (10 * MiB) (5 * MiB)).
Proof.
  cbv zeta. eexists; eexists.
  split; [reflexivity|]. split; [reflexivity|].
  vm_compute; reflexivity.
Qed.

(** ** Session store *)

Lemma ChunkInfo_of_asdict c : ChunkInfo_of (ChunkInfo_asdict c) = Ok c.
Proof. destruct c as [? ? ? ? ? ? ? [t|] ?]; reflexivity. Qed.

Lemma chunks_of_asdict cs :
  result_map ChunkInfo_of (map ChunkInfo_asdict cs) = Ok cs.
Proof.
  induction cs as [|c cs IH]; [reflexivity|].
  cbn [map result_map]. rewrite ChunkInfo_of_asdict, IH. reflexivity.
Qed.

Lemma chunks_asdict_serializable cs :
  forallb json_serializable (map ChunkInfo_asdict cs) = true.
Proof.
  induction cs as [|c cs IH]; [reflexivity|].
  cbn [map forallb]. rewrite IH.
  destruct c as [? ? ? ? ? ? ? [t|] ?]; reflexivity.
Qed.

Section StoreFacts.

Variable isoformat : datetime -> string.
Variable fromisoformat : string -> result datetime.

Lemma save_session_ok (disk : gmap string pyval) session :
  save_session isoformat disk session
  = Ok (<[session_file (session_id session) :=
            PDict (dict_set (asdict session) "start_time"
                            (PStr (isoformat (start_time session))))]> disk).
Proof.
  unfold save_session, json_dump.
  destruct session as [sid repo src total cs start done progress].
  cbn -[session_file]. rewrite chunks_asdict_serializable. reflexivity.
Qed.

(** C9. Saving a session and loading it by its identifier gives the
    session back, every field and every chunk in order, given that
    [fromisoformat] reads back what [isoformat] printed for the start
    time. *)
Theorem save_then_load_session (disk : gmap string pyval) session :
  fromisoformat (isoformat (start_time session)) = Ok (start_time session) ->
  exists disk',
    save_session isoformat disk session = Ok disk' /\
    load_session fromisoformat disk' (session_id session) = Ok (Some session).
Proof.
  intros Hiso. rewrite save_session_ok. eexists; split; [reflexivity|].
  unfold load_session. rewrite lookup_insert_eq.
  destruct session as [sid repo src total cs start done progress].
  cbn in Hiso |- *. rewrite Hiso. cbn.
  rewrite chunks_of_asdict. reflexivity.
Qed.

End StoreFacts.

Lemma save_then_load_session_witness :
  let session := example_session [example_chunk 0 true; example_chunk 1 false] in
  first_instant_fromisoformat (first_instant_isoformat (start_time session))
    = Ok (start_time session) /\
  exists disk',
    save_session first_instant_isoformat ∅ session = Ok disk' /\
    load_session first_instant_fromisoformat disk' (session_id session)
      = Ok (Some session).
Proof.
  split; [reflexivity|].
  apply (save_then_load_session first_instant_isoformat first_instant_fromisoformat
           ∅ (example_session [example_chunk 0 true; example_chunk 1 false])).
  reflexivity.
Defined.

Lemma save_then_load_roundtrip (isoformat : datetime -> string)
    (fromisoformat : string -> result datetime)
    (disk : gmap string pyval) session :
  fromisoformat (isoformat (start_time session)) = Ok (start_time session) ->
  exists disk',
    save_session isoformat disk session = Ok disk' /\
    load_session fromisoformat disk' (session_id session) = Ok (Some session).
Proof.
  intros Hiso. rewrite save_session_ok. eexists; split; [reflexivity|].
  unfold load_session. rewrite lookup_insert_eq.
  destruct session as [sid repo src total cs start done progress].
  cbn in Hiso |- *. rewrite Hiso. cbn.
  rewrite chunks_of_asdict. reflexivity.
Qed.

(** ** Status report *)

Section StatusFacts.

Variable isoformat : datetime -> string.
Variable fromisoformat : string -> result datetime.
Variable str_timedelta : Z -> string.



End StatusFacts.


(** C10. A known session for which [get_session_status] returns no record:
    one byte of 50 GiB is uploaded and half an hour has passed, the
    estimate is more than 999999999 days, and the call raises
    [OverflowError]; so it does for the session in [self.sessions] and for
    the session read from the file [save_session] wrote. *)
Theorem get_session_status_raises_on_long_estimate :
  length (chunks slow_session) = 1025%nat /\
  uploaded_size slow_session = 1 /\
  total_size slow_session = 1 + 50 * 1024 * MiB /\
  get_session_status first_instant_fromisoformat short_str_timedelta
    (example_manager {[ "s1" := slow_session ]}) ∅ half_hour_later "s1"
    = Raise OverflowError /\
  exists disk,
    save_session first_instant_isoformat ∅ slow_session = Ok disk /\
    get_session_status first_instant_fromisoformat short_str_timedelta
      (example_manager ∅) disk half_hour_later "s1"
      = Raise OverflowError.
Proof.
  split; [vm_compute; reflexivity|].
  split; [vm_compute; reflexivity|].
  split; [reflexivity|].
  split.
  - unfold get_session_status, example_manager. cbn [sessions].
    rewrite lookup_singleton_eq. vm_compute. reflexivity.
  - destruct (save_then_load_roundtrip first_instant_isoformat
                first_instant_fromisoformat ∅ slow_session eq_refl)
      as (disk & Hsave & Hload).
    exists disk. split; [exact Hsave|].
    change (session_id slow_session) with "s1" in Hload.
    unfold get_session_status, example_manager. cbn [sessions].
    rewrite lookup_empty, Hload. vm_compute. reflexivity.
Qed.

(** ** Upload scheduler *)

Lemma list_sum_insert {A} (f : A -> nat) (l : list A) i x y :
  l !! i = Some y ->
  (list_sum (map f (<[i := x]> l)) + f y = list_sum (map f l) + f x)%nat.
Proof.
  revert i; induction l as [|a l IH]; intros [|i] Hi; simpl in *;
    try discriminate.
  - inversion Hi; subst. lia.
  - specialize (IH i Hi). lia.
Qed.

Lemma map_fst_insert {A B} (l : list (A * B)) i a b b' :
  l !! i = Some (a, b) -> map fst (<[i := (a, b')]> l) = map fst l.
Proof.
  revert i; induction l as [|x l IH]; intros [|i] Hi; simpl in *;
    try discriminate.
  - inversion Hi; subst. reflexivity.
  - f_equal. apply IH, Hi.
Qed.

Lemma elem_of_pending_positions cs p :
  p ∈ pending_positions cs <-> exists c, cs !! p = Some c /\ uploaded c = false.
Proof.
  unfold pending_positions. rewrite list_elem_of_In, filter_In, in_seq.
  split.
  - intros [_ H]. destruct (cs !! p) as [c|]; [|discriminate].
    exists c. split; [reflexivity|]. destruct (uploaded c); [discriminate|reflexivity].
  - intros (c & Hc & Hu). rewrite Hc, Hu. split; [|reflexivity].
    apply lookup_lt_Some in Hc. lia.
Qed.

Lemma attempted_app tr1 tr2 : attempted (tr1 ++ tr2) = attempted tr1 ++ attempted tr2.
Proof. unfold attempted. apply flat_map_app. Qed.

Lemma length_pending_positions cs :
  Z.of_nat (length (pending_positions cs)) = Z.of_nat (length cs) - uploaded_count cs.
Proof.
  unfold pending_positions, uploaded_count.
  assert (H : forall n,
    (length (List.filter (fun i => match cs !! (i - n)%nat with
                                   | Some c => negb (uploaded c)
                                   | None => false
                                   end) (seq n (length cs)))
     + length (List.filter uploaded cs) = length cs)%nat).
  { induction cs as [|c cs IH]; intros n; [reflexivity|].
    cbn [length seq List.filter]. replace (n - n)%nat with 0%nat by lia.
    cbn [lookup list_lookup].
    specialize (IH (S n)).
    erewrite (filter_ext_in _ (fun i => match cs !! (i - S n)%nat with
                                     | Some c0 => negb (uploaded c0)
                                     | None => false
                                     end)).
    - destruct (uploaded c); simpl; lia.
    - intros i Hi. apply in_seq in Hi.
      replace (i - n)%nat with (S (i - S n)) by lia. reflexivity. }
  specialize (H 0%nat).
  erewrite (filter_ext _ (fun i => match cs !! (i - 0)%nat with
                                     | Some c => negb (uploaded c)
                                     | None => false
                                     end)).
  - lia.
  - intros i. rewrite Nat.sub_0_r. reflexivity.
Qed.

Section SchedulerFacts.

Variable remote : list event -> Q -> ChunkInfo -> outcome.
Variable choose : list nat -> nat.
Variable self : SmartUploadManager.

(** One resumption of [upload_chunk_to_github]: the task does not go back
    to waiting, it has fewer turns left, and the only attempts it makes are
    for its own chunk. *)
Lemma upload_chunk_to_github_spec now hist pos c k c' ts' evs :
  upload_chunk_to_github remote self now hist pos c k = (c', ts', evs) ->
  ts' <> Waiting /\
  (task_work self ts' < Z.to_nat (max_retries self - k) + 1)%nat /\
  (forall p, p ∈ attempted evs -> p = pos) /\
  (k < max_retries self -> pos ∈ attempted evs).
Proof.
  unfold upload_chunk_to_github. intros H.
  destruct (Z.ltb_spec k (max_retries self)) as [Hk|Hk].
  - destruct (remote hist now c);
      [| | destruct (Z.ltb_spec k (max_retries self - 1))];
      inversion H; subst; clear H; cbn;
      (split; [discriminate|]); (split; [lia|]);
      (split; [intros p Hp; apply list_elem_of_singleton in Hp; exact Hp
              | intros _; apply list_elem_of_singleton; reflexivity]).
  - inversion H; subst; clear H; cbn.
    split; [discriminate|]. split; [lia|].
    split; [intros p Hp; inversion Hp | lia].
Qed.

(** What [run_task] does for a task that is not done. *)
Lemma run_task_eq i t st pos ts c :
  ls_tasks st !! i = Some (pos, ts) ->
  (forall b, ts <> Finished b) ->
  chunks (ls_session st) !! pos = Some c ->
  let enter := match ts with Waiting => [EvAcquire pos t] | _ => [] end in
  let k := match ts with Sleeping _ k => k | _ => 0 end in
  let r := upload_chunk_to_github remote self t (ls_trace st ++ enter) pos c k in
  run_task remote self i t st
  = mkLoop t (ls_permits st - Z.of_nat (length enter) + released (snd (fst r)))
           (<[i := (pos, snd (fst r))]> (ls_tasks st))
           (with_chunks (ls_session st)
                        (<[pos := fst (fst r)]> (chunks (ls_session st))))
           (ls_awaiting st) ((ls_trace st ++ enter) ++ snd r) (ls_disk st).
Proof.
  intros Hi Hts Hc. unfold run_task. rewrite Hi, Hc.
  destruct ts as [|until k|b]; cbn zeta.
  - destruct (upload_chunk_to_github _ _ _ _ _ _ _) as [[c' ts'] evs].
    reflexivity.
  - rewrite app_nil_r.
    destruct (upload_chunk_to_github _ _ _ _ _ _ _) as [[c' ts'] evs].
    cbn. f_equal. lia.
  - exfalso. apply (Hts b). reflexivity.
Qed.

Lemma task_position session mc disk st i pos ts :
  loop_inv self session mc disk st ->
  ls_tasks st !! i = Some (pos, ts) ->
  (exists c0, chunks session !! pos = Some c0 /\ uploaded c0 = false) /\
  (exists c, chunks (ls_session st) !! pos = Some c).
Proof.
  intros Hinv Hi.
  assert (Hin : pos ∈ pending_positions (chunks session)).
  { rewrite <- (inv_tasks _ _ _ _ _ Hinv).
    apply list_elem_of_lookup. exists i. rewrite lookup_map, Hi. reflexivity. }
  apply elem_of_pending_positions in Hin. split; [exact Hin|].
  destruct Hin as (c0 & Hc0 & _).
  apply lookup_lt_is_Some. rewrite (inv_length _ _ _ _ _ Hinv).
  apply lookup_lt_Some in Hc0. exact Hc0.
Qed.

(** A task that runs keeps the invariant and uses up one of its turns. *)
Lemma run_task_inv session mc disk st i t pos ts :
  loop_inv self session mc disk st ->
  ls_tasks st !! i = Some (pos, ts) ->
  (forall b, ts <> Finished b) ->
  loop_inv self session mc disk (run_task remote self i t st) /\
  (loop_work self (run_task remote self i t st) < loop_work self st)%nat.
Proof.
  intros Hinv Hi Hts.
  destruct (task_position _ _ _ _ _ _ _ Hinv Hi) as [(c0 & Hc0 & Hu0) [c Hc]].
  rewrite (run_task_eq _ _ _ _ _ _ Hi Hts Hc). cbv zeta.
  set (enter := match ts with Waiting => [EvAcquire pos t] | _ => [] end).
  set (k := match ts with Sleeping _ k => k | _ => 0 end).
  destruct (upload_chunk_to_github remote self t (ls_trace st ++ enter) pos c k)
    as [[c' ts'] evs] eqn:Hr.
  apply upload_chunk_to_github_spec in Hr.
  destruct Hr as (Hnw & Hwork & Hevs & Hatt). cbn [fst snd].
  assert (Henter : attempted enter = []) by (subst enter; destruct ts; reflexivity).
  assert (Hnotdone : (ls_awaiting st <= i)%nat).
  { destruct (Nat.le_gt_cases (ls_awaiting st) i) as [H|H]; [exact H|].
    destruct (inv_awaited _ _ _ _ _ Hinv i H) as (p' & b & Hb).
    rewrite Hi in Hb. inversion Hb; subst. exfalso. apply (Hts b). reflexivity. }
  assert (Hlt : (i < length (ls_tasks st))%nat) by (eapply lookup_lt_Some; eauto).
  split.
  - constructor; cbn [ls_tasks ls_session ls_awaiting ls_permits ls_trace ls_disk
                        with_chunks chunks completed progress_percentage].
    + rewrite (map_fst_insert _ _ _ _ _ Hi). apply (inv_tasks _ _ _ _ _ Hinv).
    + rewrite length_insert. apply (inv_length _ _ _ _ _ Hinv).
    + rewrite length_insert. apply (inv_awaiting _ _ _ _ _ Hinv).
    + intros j Hj. rewrite list_lookup_insert_ne by lia.
      apply (inv_awaited _ _ _ _ _ Hinv j Hj).
    + pose proof (list_sum_insert holding (ls_tasks st) i (pos, ts') _ Hi) as Hs.
      pose proof (inv_permits _ _ _ _ _ Hinv) as Hp.
      assert (Hh : forall x, holding (pos, x)
                = match x with Sleeping _ _ => 1%nat | _ => 0%nat end)
        by reflexivity.
      rewrite !Hh in Hs.
      subst enter. destruct ts as [|u k0|b]; [| |exfalso; eapply Hts; eauto];
        destruct ts' as [|u' k'|b']; try (exfalso; apply Hnw; reflexivity);
        cbn [released length] in *; lia.
    + intros p cp Hp Hup.
      assert (p <> pos) by (intros ->; congruence).
      rewrite list_lookup_insert_ne by congruence.
      apply (inv_frame _ _ _ _ _ Hinv p cp Hp Hup).
    + intros p. rewrite !attempted_app, Henter, app_nil_r, elem_of_app.
      intros [Hp|Hp]; [apply (inv_attempted _ _ _ _ _ Hinv p Hp)|].
      apply Hevs in Hp. subst p. apply elem_of_pending_positions; eauto.
    + intros Hmr j pj tj Hj Hnw'.
      rewrite !attempted_app, Henter, app_nil_r, elem_of_app.
      destruct (decide (j = i)) as [->|Hne].
      * rewrite list_lookup_insert_eq in Hj by exact Hlt.
        inversion Hj; subst pj tj.
        destruct ts as [|u k0|b].
        -- right. apply Hatt. subst k. exact Hmr.
        -- left. eapply (inv_started _ _ _ _ _ Hinv Hmr); [exact Hi|discriminate].
        -- exfalso; eapply Hts; eauto.
      * rewrite list_lookup_insert_ne in Hj by congruence.
        left. eapply (inv_started _ _ _ _ _ Hinv Hmr); eauto.
    + apply (inv_disk _ _ _ _ _ Hinv).
    + apply (inv_completed _ _ _ _ _ Hinv).
    + rewrite length_insert. intros Heq _. lia.
  - unfold loop_work; cbn [ls_tasks ls_awaiting]. rewrite length_insert.
    pose proof (list_sum_insert (fun t => task_work self (snd t))
                  (ls_tasks st) i (pos, ts') _ Hi) as Hs.
    cbn [snd] in Hs.
    assert ((Z.to_nat (max_retries self - k) + 1 <= task_work self ts)%nat).
    { subst k. destruct ts as [|u k0|b]; cbn [task_work].
      - rewrite Z.sub_0_r. lia.
      - lia.
      - exfalso; eapply Hts; eauto. }
    lia.
Qed.

(** The main coroutine going on keeps the invariant and uses up a turn. *)
Lemma main_step_inv session mc disk st :
  loop_inv self session mc disk st ->
  main_ready st = true ->
  loop_inv self session mc disk (main_step st) /\
  (loop_work self (main_step st) < loop_work self st)%nat.
Proof.
  intros Hinv Hready. unfold main_ready in Hready.
  destruct (ls_tasks st !! ls_awaiting st) as [[pos ts]|] eqn:Ha; [|discriminate].
  destruct ts as [| |b]; try discriminate.
  assert (Hlt : (ls_awaiting st < length (ls_tasks st))%nat)
    by (eapply lookup_lt_Some; eauto).
  split.
  - constructor; cbn [main_step ls_tasks ls_session ls_awaiting ls_permits ls_trace
                        ls_disk with_progress chunks completed progress_percentage].
    + apply (inv_tasks _ _ _ _ _ Hinv).
    + apply (inv_length _ _ _ _ _ Hinv).
    + lia.
    + intros j Hj. destruct (decide (j = ls_awaiting st)) as [->|Hne].
      * eauto.
      * apply (inv_awaited _ _ _ _ _ Hinv). lia.
    + apply (inv_permits _ _ _ _ _ Hinv).
    + apply (inv_frame _ _ _ _ _ Hinv).
    + intros p. rewrite attempted_app. cbn. rewrite app_nil_r.
      apply (inv_attempted _ _ _ _ _ Hinv).
    + intros Hmr j pj tj Hj Hnw. rewrite attempted_app. cbn. rewrite app_nil_r.
      eapply (inv_started _ _ _ _ _ Hinv Hmr); eauto.
    + apply (inv_disk _ _ _ _ _ Hinv).
    + apply (inv_completed _ _ _ _ _ Hinv).
    + intros _ _. reflexivity.
  - unfold loop_work; cbn [main_step ls_tasks ls_awaiting]. lia.
Qed.

Lemma pick_in l first : first ∈ l -> pick choose l first ∈ l.
Proof.
  intros Hf. unfold pick.
  destruct (existsb (Nat.eqb (choose l)) l) eqn:E; [|exact Hf].
  apply existsb_exists in E. destruct E as (x & Hx & Hxe).
  apply Nat.eqb_eq in Hxe. subst x. apply list_elem_of_In. exact Hx.
Qed.

Lemma elem_of_ready_tasks st i :
  i ∈ ready_tasks st <->
  exists pos ts, ls_tasks st !! i = Some (pos, ts) /\
                 task_ready (ls_now st) (ls_permits st) ts = true.
Proof.
  unfold ready_tasks. rewrite list_elem_of_In, filter_In, in_seq. split.
  - intros [_ H]. destruct (ls_tasks st !! i) as [[pos ts]|]; [|discriminate].
    eauto.
  - intros (pos & ts & Hi & Hr). rewrite Hi. split; [|exact Hr].
    apply lookup_lt_Some in Hi. lia.
Qed.

Lemma earliest_sleeper_Some tasks n i t :
  earliest_sleeper tasks n = Some (i, t) ->
  exists pos k, (n <= i)%nat /\ tasks !! (i - n)%nat = Some (pos, Sleeping t k).
Proof.
  revert n i t; induction tasks as [|[pos ts] tasks IH]; intros n i t H;
    [discriminate|].
  assert (Hrest : forall j u, earliest_sleeper tasks (S n) = Some (j, u) ->
            exists p k, (n <= j)%nat /\
              ((pos, ts) :: tasks) !! (j - n)%nat = Some (p, Sleeping u k)).
  { intros j u Hj. apply IH in Hj. destruct Hj as (p & k & Hle & Hl).
    exists p, k. split; [lia|].
    replace (j - n)%nat with (S (j - S n)) by lia. exact Hl. }
  cbn [earliest_sleeper] in H. destruct ts as [|w k|b]; try (apply Hrest, H).
  destruct (earliest_sleeper tasks (S n)) as [[j u]|] eqn:E.
  - destruct (Qle_bool w u); inversion H; subst.
    + exists pos, k. split; [lia|]. rewrite Nat.sub_diag. reflexivity.
    + apply Hrest. reflexivity.
  - inversion H; subst. exists pos, k. split; [lia|].
    rewrite Nat.sub_diag. reflexivity.
Qed.

Lemma earliest_sleeper_None tasks n :
  earliest_sleeper tasks n = None -> list_sum (map holding tasks) = 0%nat.
Proof.
  revert n; induction tasks as [|[pos ts] tasks IH]; intros n H; [reflexivity|].
  cbn [earliest_sleeper] in H. destruct ts as [|w k|b].
  - cbn. eapply IH, H.
  - destruct (earliest_sleeper tasks (S n)) as [[j u]|];
      [destruct (Qle_bool w u)|]; discriminate.
  - cbn. eapply IH, H.
Qed.

(** A turn of the event loop keeps the invariant and leaves fewer turns. *)
Lemma step_inv session mc disk st st' :
  loop_inv self session mc disk st ->
  step remote choose self st = Some st' ->
  loop_inv self session mc disk st' /\
  (loop_work self st' < loop_work self st)%nat.
Proof.
  intros Hinv Hstep. unfold step in Hstep.
  destruct (candidates st) as [|first rest] eqn:Hc.
  - destruct (earliest_sleeper (ls_tasks st) 0) as [[i t]|] eqn:E; [|discriminate].
    inversion Hstep; subst st'.
    apply earliest_sleeper_Some in E. destruct E as (pos & k & _ & Hi).
    rewrite Nat.sub_0_r in Hi.
    eapply run_task_inv; [exact Hinv | exact Hi | discriminate].
  - assert (Hin : pick choose (first :: rest) first ∈ candidates st).
    { rewrite Hc. apply pick_in. left. }
    set (i := pick choose (first :: rest) first) in *.
    unfold candidates in Hin. apply elem_of_app in Hin.
    destruct (Nat.eqb_spec i (length (ls_tasks st))) as [Heq|Hne];
      inversion Hstep; subst st'.
    + apply main_step_inv; [exact Hinv|].
      destruct Hin as [Hin|Hin].
      * apply elem_of_ready_tasks in Hin. destruct Hin as (pos & ts & Hi & _).
        apply lookup_lt_Some in Hi. lia.
      * destruct (main_ready st); [reflexivity|inversion Hin].
    + destruct Hin as [Hin|Hin].
      * apply elem_of_ready_tasks in Hin. destruct Hin as (pos & ts & Hi & Hr).
        eapply run_task_inv; [exact Hinv | exact Hi |].
        intros b ->. discriminate.
      * destruct (main_ready st); [|inversion Hin].
        apply list_elem_of_singleton in Hin. contradiction.
Qed.

(** When nothing can run any more and the semaphore had a permit to give,
    every task has been awaited. *)
Lemma step_None_done session mc disk st :
  loop_inv self session mc disk st -> 0 < mc ->
  step remote choose self st = None ->
  loop_done st = true.
Proof.
  intros Hinv Hmc Hstep. unfold step in Hstep.
  destruct (candidates st) as [|first rest] eqn:Hc.
  2:{ destruct (Nat.eqb _ _); discriminate. }
  destruct (earliest_sleeper (ls_tasks st) 0) as [[i t]|] eqn:E; [discriminate|].
  apply earliest_sleeper_None in E.
  pose proof (inv_permits _ _ _ _ _ Hinv) as Hp. rewrite E in Hp.
  unfold candidates in Hc. apply app_eq_nil in Hc. destruct Hc as [Hr Hm].
  assert (Hall : forall j pos ts, ls_tasks st !! j = Some (pos, ts) ->
                   exists b, ts = Finished b).
  { intros j pos ts Hj. destruct ts as [|w k|b]; [| |eauto].
    - assert (Hin : j ∈ ready_tasks st).
      { apply elem_of_ready_tasks. exists pos, Waiting. split; [exact Hj|].
        cbn. apply Z.ltb_lt. lia. }
      rewrite Hr in Hin. inversion Hin.
    - exfalso.
      pose proof (list_sum_insert holding (ls_tasks st) j (pos, Waiting) _ Hj) as Hs.
      change (holding (pos, Waiting)) with 0%nat in Hs.
      change (holding (pos, Sleeping w k)) with 1%nat in Hs. lia. }
  unfold loop_done. apply Nat.eqb_eq.
  pose proof (inv_awaiting _ _ _ _ _ Hinv) as Hle.
  destruct (Nat.eq_dec (ls_awaiting st) (length (ls_tasks st))) as [Heq|Hne];
    [exact Heq|exfalso].
  destruct (lookup_lt_is_Some_2 (ls_tasks st) (ls_awaiting st) ltac:(lia))
    as [[pos ts] Ha].
  destruct (Hall _ _ _ Ha) as [b ->].
  unfold main_ready in Hm. rewrite Ha in Hm. discriminate.
Qed.

Lemma run_inv session mc disk fuel :
  forall st, loop_inv self session mc disk st ->
             loop_inv self session mc disk (run remote choose self fuel st).
Proof.
  induction fuel as [|fuel IH]; intros st Hinv; cbn [run]; [exact Hinv|].
  destruct (step remote choose self st) as [st'|] eqn:E; [|exact Hinv].
  apply IH. eapply step_inv; eauto.
Qed.

(** With a permit to give, a run of as many turns as there is work ends
    with every task awaited. *)
Lemma run_done session mc disk fuel :
  forall st, loop_inv self session mc disk st -> 0 < mc ->
             (loop_work self st <= fuel)%nat ->
             loop_done (run remote choose self fuel st) = true.
Proof.
  induction fuel as [|fuel IH]; intros st Hinv Hmc Hwork; cbn [run].
  - unfold loop_done. apply Nat.eqb_eq.
    pose proof (inv_awaiting _ _ _ _ _ Hinv). unfold loop_work in Hwork. lia.
  - destruct (step remote choose self st) as [st'|] eqn:E.
    + destruct (step_inv _ _ _ _ _ Hinv E) as [Hinv' Hlt].
      apply IH; [exact Hinv' | exact Hmc | lia].
    + eapply step_None_done; eauto.
Qed.

Lemma initial_loop_inv session mc now disk :
  loop_inv self session mc disk (initial_loop session mc now disk).
Proof.
  unfold initial_loop.
  constructor; cbn [ls_tasks ls_session ls_awaiting ls_permits ls_trace ls_disk].
  - rewrite map_map. cbn [fst]. apply map_id.
  - reflexivity.
  - lia.
  - intros j Hj. lia.
  - assert (H : forall l : list nat,
              list_sum (map holding (map (fun pos => (pos, Waiting)) l)) = 0%nat)
      by (induction l; cbn; auto).
    rewrite H. lia.
  - intros p c Hp _. exact Hp.
  - intros p Hp. inversion Hp.
  - intros _ j pos ts Hj Hnw. exfalso. rewrite lookup_map in Hj.
    destruct (pending_positions (chunks session) !! j); inversion Hj; subst.
    apply Hnw. reflexivity.
  - reflexivity.
  - reflexivity.
  - intros _ H. lia.
Qed.

(** [parallel_upload] with at least one permit returns, in a state where
    the invariant holds and every task is done. *)
Lemma parallel_upload_returns session mc now disk :
  0 < mc ->
  exists st,
    parallel_upload remote choose self session mc now disk = Ok (Some st) /\
    loop_inv self session mc disk st /\
    ls_awaiting st = length (ls_tasks st).
Proof.
  intros Hmc. unfold parallel_upload.
  destruct (Z.ltb_spec mc 0); [lia|]. cbv zeta.
  set (st0 := initial_loop session mc now disk).
  pose proof (initial_loop_inv session mc now disk) as H0. fold st0 in H0.
  pose proof (run_done _ _ _ (loop_work self st0) st0 H0 Hmc ltac:(lia)) as Hd.
  rewrite Hd. eexists. split; [reflexivity|]. split.
  - apply run_inv. exact H0.
  - unfold loop_done in Hd. apply Nat.eqb_eq in Hd. exact Hd.
Qed.

(** C5. A run over a session of which some chunks are already uploaded
    creates a task for each chunk that is not (N - M of them), makes upload
    attempts for exactly the positions of those chunks, and leaves every
    chunk that was uploaded before the run as it was, field by field. *)
Theorem parallel_upload_skips_uploaded_chunks session max_concurrent now disk :
  0 < max_concurrent -> 0 < max_retries self ->
  exists st,
    parallel_upload remote choose self session max_concurrent now disk
      = Ok (Some st) /\
    Z.of_nat (length (ls_tasks st))
      = Z.of_nat (length (chunks session)) - uploaded_count (chunks session) /\
    (forall p, p ∈ attempted (ls_trace st) <->
               exists c, chunks session !! p = Some c /\ uploaded c = false) /\
    (forall p c, chunks session !! p = Some c -> uploaded c = true ->
                 chunks (ls_session st) !! p = Some c).
Proof.
  intros Hmc Hmr.
  destruct (parallel_upload_returns session max_concurrent now disk Hmc)
    as (st & Hrun & Hinv & Hdone).
  exists st. split; [exact Hrun|]. split; [|split].
  - rewrite <- length_pending_positions, <- (inv_tasks _ _ _ _ _ Hinv), length_map.
    reflexivity.
  - intros p. rewrite <- elem_of_pending_positions. split.
    + apply (inv_attempted _ _ _ _ _ Hinv).
    + intros Hp. rewrite <- (inv_tasks _ _ _ _ _ Hinv) in Hp.
      apply list_elem_of_lookup in Hp. destruct Hp as [j Hj].
      rewrite lookup_map in Hj.
      destruct (ls_tasks st !! j) as [[p' ts]|] eqn:E; inversion Hj; subst p'.
      assert (Hlt : (j < ls_awaiting st)%nat)
        by (rewrite Hdone; eapply lookup_lt_Some; eauto).
      destruct (inv_awaited _ _ _ _ _ Hinv j Hlt) as (p' & b & Hb).
      rewrite E in Hb. inversion Hb; subst.
      eapply (inv_started _ _ _ _ _ Hinv Hmr); [exact E|discriminate].
  - apply (inv_frame _ _ _ _ _ Hinv).
Qed.

(** X25. A run sets [progress_percentage] to 100 * uploaded / total each
    time an awaited task is done, so that the value it leaves (when at
    least one chunk was to upload) is that of the final chunk states; and
    it does not write to the session directory, which is after the run
    what it was before. *)
Theorem parallel_upload_sets_progress_and_never_saves session max_concurrent now disk :
  0 < max_concurrent ->
  exists st,
    parallel_upload remote choose self session max_concurrent now disk
      = Ok (Some st) /\
    ls_disk st = disk /\
    (pending_positions (chunks session) <> [] ->
     progress_percentage (ls_session st)
     = percentage_of (chunks (ls_session st))).
Proof.
  intros Hmc.
  destruct (parallel_upload_returns session max_concurrent now disk Hmc)
    as (st & Hrun & Hinv & Hdone).
  exists st. split; [exact Hrun|]. split; [apply (inv_disk _ _ _ _ _ Hinv)|].
  intros Hne. apply (inv_progress _ _ _ _ _ Hinv Hdone).
  rewrite Hdone, <- (length_map fst), (inv_tasks _ _ _ _ _ Hinv).
  destruct (pending_positions (chunks session)); [congruence|cbn; lia].
Qed.

(** [parallel_upload] never writes [session.completed]. *)
Lemma parallel_upload_keeps_completed session max_concurrent now disk st :
  0 < max_concurrent ->
  parallel_upload remote choose self session max_concurrent now disk
    = Ok (Some st) ->
  completed (ls_session st) = completed session.
Proof.
  intros Hmc Hrun.
  destruct (parallel_upload_returns session max_concurrent now disk Hmc)
    as (st' & Hrun' & Hinv & _).
  rewrite Hrun in Hrun'. inversion Hrun'; subst st'.
  apply (inv_completed _ _ _ _ _ Hinv).
Qed.

(** C2, as the code has it. A rate-limit signal suspends the task that
    received it and no other: that task keeps its permit and sleeps until
    the reset time (or not at all when that time has passed) before its
    next attempt, its chunk is unchanged, the other tasks and the free
    permits are what they were, and any other task that waits for a permit
    is ready to enter as soon as one is free. *)
Theorem rate_limit_suspends_only_its_task st i t pos ts c reset :
  ls_tasks st !! i = Some (pos, ts) ->
  (forall b, ts <> Finished b) ->
  chunks (ls_session st) !! pos = Some c ->
  let enter := match ts with Waiting => [EvAcquire pos t] | _ => [] end in
  let k := match ts with Sleeping _ k => k | _ => 0 end in
  k < max_retries self ->
  remote (ls_trace st ++ enter) t c = RateLimited reset ->
  let st' := run_task remote self i t st in
  ls_tasks st' !! i
    = Some (pos, Sleeping (if Qle_bool (reset - t) 0 then t else (t + (reset - t))%Q)
                          (k + 1)) /\
  (forall j, j <> i -> ls_tasks st' !! j = ls_tasks st !! j) /\
  ls_permits st' = ls_permits st - Z.of_nat (length enter) /\
  chunks (ls_session st') = chunks (ls_session st) /\
  (forall j p, j <> i -> ls_tasks st !! j = Some (p, Waiting) ->
               0 < ls_permits st' -> j ∈ ready_tasks st').
Proof.
  intros Hi Hts Hc enter k Hk Hremote st'.
  assert (Hlt : (i < length (ls_tasks st))%nat) by (eapply lookup_lt_Some; eauto).
  assert (Hst' : st' = mkLoop t (ls_permits st - Z.of_nat (length enter))
            (<[i := (pos, Sleeping (if Qle_bool (reset - t) 0 then t
                                    else (t + (reset - t))%Q) (k + 1))]> (ls_tasks st))
            (with_chunks (ls_session st) (chunks (ls_session st)))
            (ls_awaiting st)
            ((ls_trace st ++ enter) ++ [EvAttempt pos k t (RateLimited reset)])
            (ls_disk st)).
  { subst st'. rewrite (run_task_eq _ _ _ _ _ _ Hi Hts Hc). cbv zeta.
    fold enter k. unfold upload_chunk_to_github.
    destruct (Z.ltb_spec k (max_retries self)); [|lia].
    rewrite Hremote. cbn [fst snd released].
    rewrite (list_insert_id _ _ _ Hc). f_equal. lia. }
  rewrite Hst'. cbn [ls_tasks ls_permits ls_session with_chunks chunks].
  split; [apply list_lookup_insert_eq; exact Hlt|].
  split; [intros j Hj; apply list_lookup_insert_ne; congruence|].
  split; [reflexivity|]. split; [reflexivity|].
  intros j p Hj Hw Hfree. apply elem_of_ready_tasks.
  exists p, Waiting. cbn [ls_tasks ls_permits ls_now task_ready].
  split; [rewrite list_lookup_insert_ne by congruence; exact Hw|].
  apply Z.ltb_lt. exact Hfree.
Qed.

End SchedulerFacts.

(** ** Upload scheduler: worked inputs *)

Lemma parallel_upload_skips_uploaded_chunks_witness :
  let session := example_session [example_chunk 0 true; example_chunk 1 false] in
  let self := example_manager ∅ in
  (0 < 3 /\ 0 < max_retries self) /\
  exists st,
    parallel_upload always_success fifo self session 3 0 ∅ = Ok (Some st) /\
    Z.of_nat (length (ls_tasks st))
      = Z.of_nat (length (chunks session)) - uploaded_count (chunks session) /\
    (forall p, p ∈ attempted (ls_trace st) <->
               exists c, chunks session !! p = Some c /\ uploaded c = false) /\
    (forall p c, chunks session !! p = Some c -> uploaded c = true ->
                 chunks (ls_session st) !! p = Some c).
Proof.
  split; [split; reflexivity|].
  apply (parallel_upload_skips_uploaded_chunks always_success fifo
           (example_manager ∅)
           (example_session [example_chunk 0 true; example_chunk 1 false])
           3 0 ∅); reflexivity.
Defined.

(** C3. The record on disk is not kept in step with the run: a session of
    two chunks is saved at its creation and run against a remote side that
    accepts every request; at the end both chunks are uploaded and the
    progress is 100, and the record [load_session] reads is still the one
    of the creation, with neither chunk uploaded and the progress at 0, two
    chunk transitions behind. *)
Theorem finished_run_leaves_stale_record :
  let session := example_session [example_chunk 0 false; example_chunk 1 false] in
  exists disk st,
    save_session first_instant_isoformat ∅ session = Ok disk /\
    parallel_upload always_success fifo (example_manager ∅) session 3 0 disk
      = Ok (Some st) /\
    map uploaded (chunks (ls_session st)) = [true; true] /\
    (progress_percentage (ls_session st) == 100)%Q /\
    ls_disk st = disk /\
    load_session first_instant_fromisoformat (ls_disk st) "s1" = Ok (Some session) /\
    map uploaded (chunks session) = [false; false] /\
    progress_percentage session = 0%Q.
Proof.
  cbv zeta. eexists. eexists.
  split; [vm_compute; reflexivity|].
  split; [vm_compute; reflexivity|].
  repeat split; vm_compute; reflexivity.
Qed.

Lemma parallel_upload_sets_progress_and_never_saves_witness :
  let session := example_session [example_chunk 0 true; example_chunk 1 false] in
  0 < 3 /\
  exists st,
    parallel_upload always_success fifo (example_manager ∅) session 3 0 ∅
      = Ok (Some st) /\
    ls_disk st = ∅ /\
    (pending_positions (chunks session) <> [] ->
     progress_percentage (ls_session st)
     = percentage_of (chunks (ls_session st))).
Proof.
  split; [reflexivity|].
  apply (parallel_upload_sets_progress_and_never_saves always_success fifo
           (example_manager ∅)
           (example_session [example_chunk 0 true; example_chunk 1 false])
           3 0 ∅); reflexivity.
Defined.

(** C2, as the specification states it, fails: the task of the second
    chunk enters the semaphore and uploads at time 0, after the first chunk
    was told at time 0 that the limit resets at time 100. *)
Lemma throttled_run_admits_before_reset :
  exists st,
    parallel_upload throttle_first fifo (example_manager ∅)
      (example_session [example_chunk 0 false; example_chunk 1 false]) 3 0 ∅
      = Ok (Some st) /\
    ls_trace st
      = [EvAcquire 0 0; EvAttempt 0 0 0 (RateLimited 100);
         EvAcquire 1 0; EvAttempt 1 0 0 Success; EvReturn 1 0 true;
         EvAttempt 0 1 100 Success; EvReturn 0 100 true;
         EvProgress 100 (200 # 2); EvProgress 100 (200 # 2)] /\
    admits_under_rate_limit (ls_trace st) = true.
Proof.
  eexists. split; [vm_compute; reflexivity|].
  split; vm_compute; reflexivity.
Qed.

Lemma rate_limit_suspends_only_its_task_witness :
  let self := example_manager ∅ in
  let st := initial_loop
              (example_session [example_chunk 0 false; example_chunk 1 false])
              3 0 ∅ in
  let st' := run_task throttle_first self 0 0 st in
  (ls_tasks st !! 0%nat = Some (0%nat, Waiting) /\
   chunks (ls_session st) !! 0%nat = Some (example_chunk 0 false) /\
   0 < max_retries self /\
   throttle_first (ls_trace st ++ [EvAcquire 0 0]) 0 (example_chunk 0 false)
     = RateLimited 100) /\
  ls_tasks st' !! 0%nat
    = Some (0%nat,
            Sleeping (if Qle_bool (100 - 0) 0 then 0%Q else (0 + (100 - 0))%Q)
                     (0 + 1)) /\
  (forall j, j <> 0%nat -> ls_tasks st' !! j = ls_tasks st !! j) /\
  ls_permits st' = ls_permits st - Z.of_nat (length [EvAcquire 0 0]) /\
  chunks (ls_session st') = chunks (ls_session st) /\
  (forall j p, j <> 0%nat -> ls_tasks st !! j = Some (p, Waiting) ->
               0 < ls_permits st' -> j ∈ ready_tasks st').
Proof.
  split; [repeat split; reflexivity|].
  apply (rate_limit_suspends_only_its_task throttle_first (example_manager ∅)
           (initial_loop
              (example_session [example_chunk 0 false; example_chunk 1 false])
              3 0 ∅)
           0%nat 0%Q 0%nat Waiting (example_chunk 0 false) 100%Q);
    [reflexivity | discriminate | reflexivity | reflexivity | reflexivity].
Defined.

(** C4 on the upload path: after a run that uploads every chunk the
    progress is 100 and [completed] is still false. *)
Theorem upload_run_leaves_completed_false :
  let session := example_session [example_chunk 0 false; example_chunk 1 false] in
  exists st,
    parallel_upload always_success fifo (example_manager ∅) session 3 0 ∅
      = Ok (Some st) /\
    forallb uploaded (chunks (ls_session st)) = true /\
    (progress_percentage (ls_session st) == 100)%Q /\
    completed (ls_session st) = false.
Proof.
  cbv zeta. eexists. split; [vm_compute; reflexivity|].
  repeat split; vm_compute; reflexivity.
Qed.

(** The resume path does what the upload path misses: it sets [completed]
    once every chunk is uploaded. *)
Lemma resume_upload_marks_completed :
  let session := example_session [example_chunk 0 true; example_chunk 1 false] in
  exists disk self' session',
    save_session first_instant_isoformat ∅ session = Ok disk /\
    resume_upload first_instant_fromisoformat always_success fifo
                  (example_manager ∅) disk "s1" 0 fast
      = Ok (Some (self', true, Some session')) /\
    forallb uploaded (chunks session') = true /\
    completed session' = true.
Proof.
  cbv zeta. eexists. eexists. eexists.
  split; [vm_compute; reflexivity|].
  split; [vm_compute; reflexivity|].
  split; vm_compute; reflexivity.
Qed.

(** ** Upload scheduler: what a run does to chunks, attempts and permits *)

Lemma outcomes_of_app p tr1 tr2 :
  outcomes_of p (tr1 ++ tr2) = outcomes_of p tr1 ++ outcomes_of p tr2.
Proof. unfold outcomes_of. apply flat_map_app. Qed.

Lemma outcomes_of_attempted p tr :
  outcomes_of p tr <> [] -> p ∈ attempted tr.
Proof.
  induction tr as [|e tr IH]; [intros H; exfalso; apply H; reflexivity|].
  change (e :: tr) with ([e] ++ tr).
  rewrite outcomes_of_app, attempted_app, elem_of_app.
  destruct e as [q t|q k t o|q t b|t x]; cbn; try (intros H; right; exact (IH H)).
  destruct (Nat.eqb_spec q p) as [->|Hne]; cbn.
  - intros _. left. apply list_elem_of_singleton. reflexivity.
  - intros H. right. exact (IH H).
Qed.

Lemma NoDup_pending_positions cs : NoDup (pending_positions cs).
Proof.
  unfold pending_positions.
  apply NoDup_ListNoDup, List.NoDup_filter, List.seq_NoDup.
Qed.

Section SchedulerRuns.

Variable remote : list event -> Q -> ChunkInfo -> outcome.
Variable choose : list nat -> nat.
Variable self : SmartUploadManager.

(** The ways one resumption of [upload_chunk_to_github] can go. *)
Lemma upload_chunk_to_github_cases now hist pos c k :
  let r := upload_chunk_to_github remote self now hist pos c k in
  (forall p, p <> pos -> outcomes_of p (snd r) = []) /\
  Forall (answered_by remote) (snd r) /\
  ((max_retries self <= k /\ fst (fst r) = c /\ snd (fst r) = Finished false /\
    outcomes_of pos (snd r) = []) \/
   (k < max_retries self /\ outcomes_of pos (snd r) = [remote hist now c] /\
    match remote hist now c with
    | Success => fst (fst r) = mark_uploaded c now /\ snd (fst r) = Finished true
    | RateLimited _ => fst (fst r) = c /\ exists u, snd (fst r) = Sleeping u (k + 1)
    | OtherError =>
        fst (fst r) = count_retry c /\
        ((k < max_retries self - 1 /\ exists u, snd (fst r) = Sleeping u (k + 1)) \/
         (k = max_retries self - 1 /\ snd (fst r) = Finished false))
    end)).
Proof.
  cbv zeta. unfold upload_chunk_to_github.
  destruct (Z.ltb_spec k (max_retries self)) as [Hk|Hk].
  - split; [|split].
    + intros p Hp.
      assert (E : Nat.eqb pos p = false) by (apply Nat.eqb_neq; congruence).
      destruct (remote hist now c);
        [| | destruct (k <? max_retries self - 1)]; cbn; rewrite E; reflexivity.
    + destruct (remote hist now c) as [|r|] eqn:Er;
        [| | destruct (k <? max_retries self - 1)]; cbn;
        repeat constructor; exists hist, c; exact Er.
    + right. split; [exact Hk|].
      destruct (remote hist now c) as [|r|] eqn:Er;
        [| | destruct (Z.ltb_spec k (max_retries self - 1))];
        cbn; rewrite Nat.eqb_refl; cbn.
      * auto.
      * eauto.
      * split; [reflexivity|]. split; [reflexivity|]. left. eauto.
      * split; [reflexivity|]. split; [reflexivity|]. right. split; [lia|reflexivity].
  - split; [|split].
    + intros p _. reflexivity.
    + cbn. repeat constructor.
    + left. cbn. auto.
Qed.

(** A task that runs when it may keeps the facts. *)
Lemma run_task_facts session mc disk st i t pos ts :
  loop_inv self session mc disk st ->
  loop_facts remote self session st ->
  ls_tasks st !! i = Some (pos, ts) ->
  (forall b, ts <> Finished b) ->
  (ts = Waiting -> 0 < ls_permits st) ->
  loop_facts remote self session (run_task remote self i t st).
Proof.
  intros Hinv Hf Hi Hts Hready.
  destruct (lf_task _ _ _ _ Hf i pos ts Hi) as (c0 & c & Hc0 & Hc & Hfact).
  rewrite (run_task_eq remote self _ _ _ _ _ _ Hi Hts Hc). cbv zeta.
  set (enter := match ts with Waiting => [EvAcquire pos t] | _ => [] end).
  set (k := match ts with Sleeping _ k => k | _ => 0 end).
  pose proof (upload_chunk_to_github_cases t (ls_trace st ++ enter) pos c k) as Hcases.
  cbv zeta in Hcases.
  destruct (upload_chunk_to_github remote self t (ls_trace st ++ enter) pos c k)
    as [[c' ts'] evs]. cbn [fst snd] in *.
  destruct Hcases as (Hother & Hans & Hcases).
  assert (Henter : forall p, outcomes_of p enter = [])
    by (intros p; subst enter; destruct ts; reflexivity).
  assert (Hlt : (i < length (ls_tasks st))%nat) by (eapply lookup_lt_Some; eauto).
  assert (Hplt : (pos < length (chunks (ls_session st)))%nat)
    by (eapply lookup_lt_Some; eauto).
  constructor; cbn [ls_tasks ls_session ls_permits ls_trace with_chunks chunks].
  - pose proof (lf_permits _ _ _ _ Hf).
    assert (0 <= released ts') by (destruct ts'; cbn; lia).
    subst enter. destruct ts; cbn [length]; try lia.
    specialize (Hready eq_refl). lia.
  - rewrite (map_fst_insert _ _ _ _ _ Hi). apply (lf_nodup _ _ _ _ Hf).
  - apply Forall_app. split; [|exact Hans].
    apply Forall_app. split; [apply (lf_remote _ _ _ _ Hf)|].
    subst enter. destruct ts; repeat constructor.
  - cbn [session_id repo_name source_path total_size start_time].
    apply (lf_identity _ _ _ _ Hf).
  - intros j pj tj Hj.
    rewrite !outcomes_of_app, Henter, app_nil_r.
    destruct (decide (j = i)) as [->|Hne].
    + rewrite list_lookup_insert_eq in Hj by exact Hlt.
      inversion Hj; subst pj tj.
      exists c0, c'. split; [exact Hc0|].
      split; [apply list_lookup_insert_eq; exact Hplt|].
      destruct Hfact as (F1 & F2 & F3 & F4 & F5 & F6 & F7 & F8 & F9 & F10).
      assert (Hlen : Z.of_nat (length (outcomes_of pos (ls_trace st))) = k
                     /\ k <= Z.max 0 (max_retries self)
                     /\ (0 < k -> k <= max_retries self)
                     /\ uploaded c = false).
      { subst k. destruct ts as [|u k0|b].
        - rewrite F10 in *. cbn in *. repeat split; first [lia | exact F8].
        - destruct F10 as (L1 & L2 & L3). repeat split; first [lia | assumption].
        - exfalso; eapply Hts; eauto. }
      destruct Hlen as (L1 & L2 & L2' & L3).
      destruct Hcases as [(Hk & -> & -> & Hos)|(Hk & Hos & Hm)]; rewrite Hos.
      * rewrite app_nil_r. unfold task_fact.
        repeat match goal with |- _ /\ _ => split end;
          first [assumption | lia | (intros _; lia)].
      * unfold task_fact.
        rewrite List.filter_app, existsb_app, !length_app.
        rewrite L3 in F8.
        destruct (remote (ls_trace st ++ enter) t c) as [|r|].
        -- destruct Hm as [-> ->]. cbn. rewrite <- F8. cbn.
           repeat match goal with |- _ /\ _ => split end;
             first [assumption | lia | reflexivity | discriminate].
        -- destruct Hm as [-> [u ->]]. cbn. rewrite <- F8. cbn.
           repeat match goal with |- _ /\ _ => split end;
             first [assumption | lia | reflexivity].
        -- destruct Hm as [-> Hts']. cbn. rewrite <- F8. cbn.
           destruct Hts' as [[Hk' [u ->]]|[Hk' ->]];
             repeat match goal with |- _ /\ _ => split end;
             first [assumption | lia | reflexivity | (intros _; lia)].
    + rewrite list_lookup_insert_ne in Hj by congruence.
      destruct (lf_task _ _ _ _ Hf j pj tj Hj) as (d0 & d & Hd0 & Hd & Hdf).
      assert (Hpne : pj <> pos).
      { intros ->. apply Hne.
        eapply (NoDup_lookup _ _ _ _ (lf_nodup _ _ _ _ Hf));
          rewrite lookup_map; [rewrite Hj|rewrite Hi]; reflexivity. }
      exists d0, d. split; [exact Hd0|].
      split; [rewrite list_lookup_insert_ne by congruence; exact Hd|].
      rewrite (Hother pj Hpne), app_nil_r. exact Hdf.
Qed.

Lemma main_step_facts session st :
  loop_facts remote self session st ->
  loop_facts remote self session (main_step st).
Proof.
  intros Hf.
  constructor; cbn [main_step ls_tasks ls_session ls_permits ls_trace
                      with_progress chunks].
  - apply (lf_permits _ _ _ _ Hf).
  - apply (lf_nodup _ _ _ _ Hf).
  - apply Forall_app. split; [apply (lf_remote _ _ _ _ Hf)|repeat constructor].
  - cbn [session_id repo_name source_path total_size start_time].
    apply (lf_identity _ _ _ _ Hf).
  - intros j pos ts Hj. rewrite outcomes_of_app. cbn. rewrite app_nil_r.
    apply (lf_task _ _ _ _ Hf j pos ts Hj).
Qed.

Lemma step_facts session mc disk st st' :
  loop_inv self session mc disk st ->
  loop_facts remote self session st ->
  step remote choose self st = Some st' ->
  loop_facts remote self session st'.
Proof.
  intros Hinv Hf Hstep. unfold step in Hstep.
  destruct (candidates st) as [|first rest] eqn:Hc.
  - destruct (earliest_sleeper (ls_tasks st) 0) as [[i t]|] eqn:E; [|discriminate].
    inversion Hstep; subst st'.
    apply earliest_sleeper_Some in E. destruct E as (pos & k & _ & Hi).
    rewrite Nat.sub_0_r in Hi.
    eapply run_task_facts; eauto; discriminate.
  - assert (Hin : pick choose (first :: rest) first ∈ candidates st).
    { rewrite Hc. apply pick_in. left. }
    set (i := pick choose (first :: rest) first) in *.
    unfold candidates in Hin. apply elem_of_app in Hin.
    destruct (Nat.eqb_spec i (length (ls_tasks st))) as [Heq|Hne];
      inversion Hstep; subst st'.
    + apply main_step_facts. exact Hf.
    + destruct Hin as [Hin|Hin].
      * apply elem_of_ready_tasks in Hin. destruct Hin as (pos & ts & Hi & Hr).
        eapply run_task_facts; eauto.
        -- intros b ->. discriminate.
        -- intros ->. cbn in Hr. apply Z.ltb_lt in Hr. exact Hr.
      * destruct (main_ready st); [|inversion Hin].
        apply list_elem_of_singleton in Hin. contradiction.
Qed.

Lemma run_facts session mc disk fuel :
  forall st, loop_inv self session mc disk st ->
             loop_facts remote self session st ->
             loop_inv self session mc disk (run remote choose self fuel st) /\
             loop_facts remote self session (run remote choose self fuel st).
Proof.
  induction fuel as [|fuel IH]; intros st Hinv Hf; cbn [run]; [auto|].
  destruct (step remote choose self st) as [st'|] eqn:E; [|auto].
  apply IH.
  - eapply step_inv; eauto.
  - eapply step_facts; eauto.
Qed.

Lemma initial_loop_facts session mc now disk :
  0 <= mc ->
  loop_facts remote self session (initial_loop session mc now disk).
Proof.
  intros Hmc. unfold initial_loop.
  constructor; cbn [ls_tasks ls_session ls_permits ls_trace].
  - exact Hmc.
  - rewrite map_map. cbn [fst]. rewrite map_id. apply NoDup_pending_positions.
  - constructor.
  - repeat split.
  - intros j pos ts Hj. rewrite lookup_map in Hj.
    destruct (pending_positions (chunks session) !! j) as [p|] eqn:E;
      inversion Hj; subst.
    assert (Hin : pos ∈ pending_positions (chunks session))
      by (apply list_elem_of_lookup; eauto).
    apply elem_of_pending_positions in Hin. destruct Hin as (c0 & Hc0 & Hu).
    exists c0, c0. split; [exact Hc0|]. split; [exact Hc0|].
    unfold task_fact. cbn.
    repeat match goal with |- _ /\ _ => split end;
      first [reflexivity | lia | assumption | (intros _; reflexivity)].
Qed.

(** The state a run is in after any number of turns. *)
Lemma reachable_facts session mc now disk fuel :
  0 <= mc ->
  let st := run remote choose self fuel (initial_loop session mc now disk) in
  loop_inv self session mc disk st /\ loop_facts remote self session st.
Proof.
  intros Hmc. apply run_facts.
  - apply initial_loop_inv.
  - apply initial_loop_facts. exact Hmc.
Qed.

(** Every chunk of the session, at any point of a run: what it has become
    and the attempts made for it. *)
Lemma chunk_facts session mc disk st p c0 :
  loop_inv self session mc disk st ->
  loop_facts remote self session st ->
  chunks session !! p = Some c0 ->
  exists c,
    chunks (ls_session st) !! p = Some c /\
    (chunk_id c = chunk_id c0 /\ file_path c = file_path c0 /\
     chunk_index c = chunk_index c0 /\ total_chunks c = total_chunks c0 /\
     size c = size c0 /\ checksum c = checksum c0) /\
    retry_count c
      = retry_count c0
        + Z.of_nat (length (List.filter is_error (outcomes_of p (ls_trace st)))) /\
    uploaded c = uploaded c0 || existsb is_success (outcomes_of p (ls_trace st)) /\
    Z.of_nat (length (outcomes_of p (ls_trace st))) <= Z.max 0 (max_retries self) /\
    (uploaded c = false -> upload_time c = upload_time c0).
Proof.
  intros Hinv Hf Hc0.
  destruct (uploaded c0) eqn:Hu.
  - exists c0. split; [apply (inv_frame _ _ _ _ _ Hinv p c0 Hc0 Hu)|].
    assert (Hos : outcomes_of p (ls_trace st) = []).
    { destruct (outcomes_of p (ls_trace st)) as [|o os] eqn:E; [reflexivity|].
      exfalso.
      assert (Hin : p ∈ attempted (ls_trace st))
        by (apply outcomes_of_attempted; rewrite E; discriminate).
      apply (inv_attempted _ _ _ _ _ Hinv) in Hin.
      apply elem_of_pending_positions in Hin. destruct Hin as (c & Hc & Hcu).
      congruence. }
    rewrite Hos. cbn. repeat split; first [reflexivity | lia | assumption].
  - assert (Hin : p ∈ map fst (ls_tasks st)).
    { rewrite (inv_tasks _ _ _ _ _ Hinv). apply elem_of_pending_positions. eauto. }
    apply list_elem_of_lookup in Hin. destruct Hin as [j Hj].
    rewrite lookup_map in Hj.
    destruct (ls_tasks st !! j) as [[p' ts]|] eqn:E; inversion Hj; subst p'.
    destruct (lf_task _ _ _ _ Hf j p ts E) as (d0 & c & Hd0 & Hc & Hfact).
    rewrite Hc0 in Hd0. inversion Hd0; subst d0.
    destruct Hfact as (F1 & F2 & F3 & F4 & F5 & F6 & F7 & F8 & F9 & F10).
    exists c. split; [exact Hc|]. split; [tauto|]. split; [exact F7|].
    split; [exact F8|]. split; [|exact F9].
    destruct ts as [|u k|b].
    + rewrite F10. cbn. lia.
    + lia.
    + tauto.
Qed.

(** X1. The semaphore of [parallel_upload]: at any point of a run its value is
    not negative, and the tasks inside [async with semaphore] are at most
    [max_concurrent]. *)
Theorem semaphore_bounds_running_uploads session max_concurrent now disk fuel :
  0 <= max_concurrent ->
  let st := run remote choose self fuel
                (initial_loop session max_concurrent now disk) in
  0 <= ls_permits st /\
  Z.of_nat (list_sum (map holding (ls_tasks st))) <= max_concurrent.
Proof.
  intros Hmc st.
  destruct (reachable_facts session max_concurrent now disk fuel Hmc) as [Hinv Hf].
  fold st in Hinv, Hf.
  pose proof (lf_permits _ _ _ _ Hf). pose proof (inv_permits _ _ _ _ _ Hinv).
  lia.
Qed.

(** X2. The retry loop of [upload_chunk_to_github]: at any point of a run, the
    attempts made for a chunk are at most [max_retries] (none when
    [max_retries] is not positive). *)
Theorem attempts_per_chunk_bounded session max_concurrent now disk fuel p :
  0 <= max_concurrent ->
  let st := run remote choose self fuel
                (initial_loop session max_concurrent now disk) in
  Z.of_nat (length (outcomes_of p (ls_trace st))) <= Z.max 0 (max_retries self).
Proof.
  intros Hmc st.
  destruct (reachable_facts session max_concurrent now disk fuel Hmc) as [Hinv Hf].
  fold st in Hinv, Hf.
  destruct (chunks session !! p) as [c0|] eqn:Hc0.
  - destruct (chunk_facts _ _ _ _ _ _ Hinv Hf Hc0) as (c & _ & _ & _ & _ & H & _).
    exact H.
  - destruct (outcomes_of p (ls_trace st)) as [|o os] eqn:E; [cbn; lia|].
    exfalso.
    assert (Hin : p ∈ attempted (ls_trace st))
      by (apply outcomes_of_attempted; rewrite E; discriminate).
    apply (inv_attempted _ _ _ _ _ Hinv) in Hin.
    apply elem_of_pending_positions in Hin. destruct Hin as (c & Hc & _).
    congruence.
Qed.

(** X3. What a run writes to a chunk: the identifier, path, index, total, size
    and checksum stay as planned, and [retry_count] has grown by the number
    of attempts for the chunk that ended in an error other than a rate
    limit. *)
Theorem run_counts_failed_attempts session max_concurrent now disk fuel p c0 :
  0 <= max_concurrent ->
  chunks session !! p = Some c0 ->
  let st := run remote choose self fuel
                (initial_loop session max_concurrent now disk) in
  exists c,
    chunks (ls_session st) !! p = Some c /\
    chunk_id c = chunk_id c0 /\ file_path c = file_path c0 /\
    chunk_index c = chunk_index c0 /\ total_chunks c = total_chunks c0 /\
    size c = size c0 /\ checksum c = checksum c0 /\
    retry_count c
      = retry_count c0
        + Z.of_nat (length (List.filter is_error (outcomes_of p (ls_trace st)))).
Proof.
  intros Hmc Hc0 st.
  destruct (reachable_facts session max_concurrent now disk fuel Hmc) as [Hinv Hf].
  fold st in Hinv, Hf.
  destruct (chunk_facts _ _ _ _ _ _ Hinv Hf Hc0) as (c & Hc & Hs & Hr & _).
  exists c. tauto.
Qed.

(** X4. No chunk is marked uploaded without the remote side having accepted it:
    at any point of a run a chunk is uploaded exactly when it was before
    the run or an attempt for it succeeded, and a chunk that is not keeps
    the upload time it had. *)
Theorem uploaded_only_after_success session max_concurrent now disk fuel p c0 :
  0 <= max_concurrent ->
  chunks session !! p = Some c0 ->
  let st := run remote choose self fuel
                (initial_loop session max_concurrent now disk) in
  exists c,
    chunks (ls_session st) !! p = Some c /\
    uploaded c = uploaded c0 || existsb is_success (outcomes_of p (ls_trace st)) /\
    (uploaded c = false -> upload_time c = upload_time c0).
Proof.
  intros Hmc Hc0 st.
  destruct (reachable_facts session max_concurrent now disk fuel Hmc) as [Hinv Hf].
  fold st in Hinv, Hf.
  destruct (chunk_facts _ _ _ _ _ _ Hinv Hf Hc0) as (c & Hc & _ & _ & Hu & _ & Ht).
  exists c. tauto.
Qed.

Lemma parallel_upload_final session mc now disk :
  0 < mc ->
  exists st,
    parallel_upload remote choose self session mc now disk = Ok (Some st) /\
    loop_inv self session mc disk st /\
    loop_facts remote self session st /\
    ls_awaiting st = length (ls_tasks st).
Proof.
  intros Hmc.
  destruct (parallel_upload_returns remote choose self session mc now disk Hmc)
    as (st & Hrun & Hinv & Hdone).
  exists st. split; [exact Hrun|]. split; [exact Hinv|]. split; [|exact Hdone].
  unfold parallel_upload in Hrun.
  destruct (mc <? 0); [discriminate|]. cbv zeta in Hrun.
  destruct (loop_done _) in Hrun; inversion Hrun.
  apply reachable_facts. lia.
Qed.

(** At the end of a run every task is done. *)
Lemma final_task session mc disk st p c0 :
  loop_inv self session mc disk st ->
  ls_awaiting st = length (ls_tasks st) ->
  chunks session !! p = Some c0 -> uploaded c0 = false ->
  exists j b, ls_tasks st !! j = Some (p, Finished b).
Proof.
  intros Hinv Hdone Hc0 Hu.
  assert (Hin : p ∈ map fst (ls_tasks st)).
  { rewrite (inv_tasks _ _ _ _ _ Hinv). apply elem_of_pending_positions. eauto. }
  apply list_elem_of_lookup in Hin. destruct Hin as [j Hj].
  rewrite lookup_map in Hj.
  destruct (ls_tasks st !! j) as [[p' ts]|] eqn:E; inversion Hj; subst p'.
  assert (Hlt : (j < ls_awaiting st)%nat)
    by (rewrite Hdone; eapply lookup_lt_Some; eauto).
  destruct (inv_awaited _ _ _ _ _ Hinv j Hlt) as (p' & b & Hb).
  rewrite E in Hb. inversion Hb; subst. eauto.
Qed.

(** X5. A run gives up on a chunk only when its attempts are used up: of the
    chunks that were to upload, each is at the end either uploaded or has
    had [max_retries] attempts (rate-limited ones included). *)
Theorem run_gives_up_after_max_retries session max_concurrent now disk :
  0 < max_concurrent ->
  exists st,
    parallel_upload remote choose self session max_concurrent now disk
      = Ok (Some st) /\
    forall p c0, chunks session !! p = Some c0 -> uploaded c0 = false ->
      exists c, chunks (ls_session st) !! p = Some c /\
        (uploaded c = true \/
         Z.of_nat (length (outcomes_of p (ls_trace st)))
           = Z.max 0 (max_retries self)).
Proof.
  intros Hmc.
  destruct (parallel_upload_final session max_concurrent now disk Hmc)
    as (st & Hrun & Hinv & Hf & Hdone).
  exists st. split; [exact Hrun|]. intros p c0 Hc0 Hu.
  destruct (final_task _ _ _ _ _ _ Hinv Hdone Hc0 Hu) as (j & b & Hj).
  destruct (lf_task _ _ _ _ Hf j p _ Hj) as (d0 & c & _ & Hc & Hfact).
  exists c. split; [exact Hc|].
  destruct Hfact as (_ & _ & _ & _ & _ & _ & _ & _ & _ & _ & Hb & Hgive).
  destruct b; [left; exact Hb | right; apply Hgive; reflexivity].
Qed.

Lemma outcomes_all_success tr p :
  (forall history t c, remote history t c = Success) ->
  Forall (answered_by remote) tr ->
  existsb is_success (outcomes_of p tr)
  = negb (Nat.eqb (length (outcomes_of p tr)) 0).
Proof.
  intros Hok Hall. induction Hall as [|e tr He Hall IH]; [reflexivity|].
  change (e :: tr) with ([e] ++ tr). rewrite outcomes_of_app.
  destruct e as [q t|q k t o|q t b|t x]; cbn; try exact IH.
  destruct (Nat.eqb q p); cbn; [|exact IH].
  destruct He as (h & c & Ho). rewrite Hok in Ho. subst o. reflexivity.
Qed.

Lemma filter_all {A} (f : A -> bool) (l : list A) :
  forallb f l = true -> List.filter f l = l.
Proof.
  induction l as [|a l IH]; [reflexivity|]. cbn.
  destruct (f a); [|discriminate]. intros H. rewrite IH by exact H. reflexivity.
Qed.

Lemma percentage_of_all_uploaded cs :
  cs <> [] -> forallb uploaded cs = true -> (percentage_of cs == 100)%Q.
Proof.
  intros Hne Hall. unfold percentage_of, uploaded_count.
  rewrite (filter_all _ _ Hall).
  assert (Hn : ~ (inject_Z (Z.of_nat (length cs)) == 0)%Q).
  { unfold Qeq, inject_Z. cbn. destruct cs; [congruence|cbn [length]; lia]. }
  field. exact Hn.
Qed.

Lemma accepted_run_final session max_concurrent now disk :
  (forall history t c, remote history t c = Success) ->
  0 < max_concurrent -> 0 < max_retries self ->
  exists st,
    parallel_upload remote choose self session max_concurrent now disk
      = Ok (Some st) /\
    forallb uploaded (chunks (ls_session st)) = true /\
    (pending_positions (chunks session) <> [] ->
     (progress_percentage (ls_session st) == 100)%Q).
Proof.
  intros Hok Hmc Hmr.
  destruct (parallel_upload_final session max_concurrent now disk Hmc)
    as (st & Hrun & Hinv & Hf & Hdone).
  exists st. split; [exact Hrun|].
  assert (Hall : forallb uploaded (chunks (ls_session st)) = true).
  { apply forallb_forall. intros c Hc.
    apply list_elem_of_In, list_elem_of_lookup in Hc. destruct Hc as [p Hp].
    assert (Hlt : (p < length (chunks session))%nat)
      by (rewrite <- (inv_length _ _ _ _ _ Hinv); eapply lookup_lt_Some; eauto).
    destruct (lookup_lt_is_Some_2 _ _ Hlt) as [c0 Hc0].
    destruct (uploaded c0) eqn:Hu.
    - rewrite (inv_frame _ _ _ _ _ Hinv p c0 Hc0 Hu) in Hp.
      inversion Hp; subst. exact Hu.
    - destruct (final_task _ _ _ _ _ _ Hinv Hdone Hc0 Hu) as (j & b & Hj).
      destruct (lf_task _ _ _ _ Hf j p _ Hj) as (d0 & c' & _ & Hc' & Hfact).
      rewrite Hp in Hc'. inversion Hc'; subst c'.
      destruct Hfact as (_ & _ & _ & _ & _ & _ & _ & F8 & _ & _ & Hb & Hgive).
      destruct b; [exact Hb|].
      specialize (Hgive eq_refl).
      rewrite (outcomes_all_success _ p Hok (lf_remote _ _ _ _ Hf)) in F8.
      rewrite F8.
      destruct (length (outcomes_of p (ls_trace st))); [lia|reflexivity]. }
  split; [exact Hall|]. intros Hne.
  assert (Hp : progress_percentage (ls_session st)
               = percentage_of (chunks (ls_session st))).
  { apply (inv_progress _ _ _ _ _ Hinv Hdone).
    rewrite Hdone, <- (length_map fst), (inv_tasks _ _ _ _ _ Hinv).
    destruct (pending_positions (chunks session)); [congruence|cbn; lia]. }
  rewrite Hp. apply percentage_of_all_uploaded; [|exact Hall].
  intros Hnil.
  assert (Hlen : length (chunks session) = 0%nat)
    by (rewrite <- (inv_length _ _ _ _ _ Hinv), Hnil; reflexivity).
  apply Hne. unfold pending_positions. rewrite Hlen. reflexivity.
Qed.

(** X6. When the remote side accepts every request, a run with a free permit
    and at least one attempt per chunk ends with every chunk uploaded, and
    with the progress at 100 if there was a chunk to upload. *)
Theorem accepted_run_uploads_everything session max_concurrent now disk :
  (forall history t c, remote history t c = Success) ->
  0 < max_concurrent -> 0 < max_retries self ->
  exists st,
    parallel_upload remote choose self session max_concurrent now disk
      = Ok (Some st) /\
    forallb uploaded (chunks (ls_session st)) = true /\
    (pending_positions (chunks session) <> [] ->
     (progress_percentage (ls_session st) == 100)%Q).
Proof. apply accepted_run_final. Qed.

Lemma pending_positions_nil cs :
  forallb uploaded cs = true -> pending_positions cs = [].
Proof.
  intros Hall.
  destruct (pending_positions cs) as [|p l] eqn:E; [reflexivity|exfalso].
  assert (Hin : p ∈ pending_positions cs) by (rewrite E; left).
  apply elem_of_pending_positions in Hin. destruct Hin as (c & Hc & Hu).
  rewrite forallb_forall in Hall.
  rewrite Hall in Hu; [discriminate|].
  apply list_elem_of_In, list_elem_of_lookup. eauto.
Qed.

(** X7. With nothing left to upload (every chunk uploaded, or no chunk at all)
    [parallel_upload] returns at once: no task, no attempt, and the session
    as it was, its progress included. *)
Theorem parallel_upload_with_nothing_pending session max_concurrent now disk :
  forallb uploaded (chunks session) = true -> 0 <= max_concurrent ->
  parallel_upload remote choose self session max_concurrent now disk
  = Ok (Some (mkLoop now max_concurrent [] session 0 [] disk)).
Proof.
  intros Hall Hmc. unfold parallel_upload, initial_loop.
  destruct (Z.ltb_spec max_concurrent 0); [lia|].
  rewrite (pending_positions_nil _ Hall). reflexivity.
Qed.

Lemma earliest_sleeper_waiting (l : list nat) n :
  earliest_sleeper (map (fun pos => (pos, Waiting)) l) n = None.
Proof. revert n; induction l as [|p l IH]; intros n; cbn; auto. Qed.

(** X8. With a semaphore of zero and a chunk to upload, [parallel_upload] never
    returns: no task can enter the semaphore. *)
Theorem parallel_upload_without_permit_blocks session now disk :
  forallb uploaded (chunks session) = false ->
  parallel_upload remote choose self session 0 now disk = Ok None.
Proof.
  intros Hsome. unfold parallel_upload. cbn [Z.ltb Z.compare]. cbv zeta.
  set (st0 := initial_loop session 0 now disk).
  assert (Hne : pending_positions (chunks session) <> []).
  { intros Hnil.
    assert (Hall : forallb uploaded (chunks session) = true); [|congruence].
    apply forallb_forall. intros c Hc.
    apply list_elem_of_In, list_elem_of_lookup in Hc. destruct Hc as [p Hp].
    destruct (uploaded c) eqn:Hu; [reflexivity|exfalso].
    assert (Hin : p ∈ pending_positions (chunks session))
      by (apply elem_of_pending_positions; eauto).
    rewrite Hnil in Hin. inversion Hin. }
  assert (Hstep : step remote choose self st0 = None).
  { unfold step.
    assert (Hready : ready_tasks st0 = []).
    { destruct (ready_tasks st0) as [|i l] eqn:E; [reflexivity|exfalso].
      assert (Hin : i ∈ ready_tasks st0) by (rewrite E; left).
      apply elem_of_ready_tasks in Hin. destruct Hin as (pos & ts & Hi & Hr).
      unfold st0, initial_loop in Hi. cbn [ls_tasks] in Hi.
      rewrite lookup_map in Hi.
      destruct (pending_positions (chunks session) !! i); inversion Hi; subst.
      discriminate Hr. }
    assert (Hmain : main_ready st0 = false).
    { unfold main_ready, st0, initial_loop. cbn [ls_tasks ls_awaiting].
      rewrite lookup_map.
      destruct (pending_positions (chunks session) !! 0%nat); reflexivity. }
    unfold candidates. rewrite Hready, Hmain. cbn [app].
    unfold st0, initial_loop. cbn [ls_tasks].
    rewrite earliest_sleeper_waiting. reflexivity. }
  assert (Hrun : forall fuel, run remote choose self fuel st0 = st0)
    by (intros [|fuel]; cbn [run]; [|rewrite Hstep]; reflexivity).
  rewrite Hrun. unfold loop_done, st0, initial_loop. cbn [ls_awaiting ls_tasks].
  rewrite length_map.
  destruct (pending_positions (chunks session)); [congruence|reflexivity].
Qed.

End SchedulerRuns.

(** ** Resume *)

Section ResumeFacts.

Variable isoformat : datetime -> string.
Variable fromisoformat : string -> result datetime.
Variable remote : list event -> Q -> ChunkInfo -> outcome.
Variable choose : list nat -> nat.


(** X10. Saving a session and resuming it against a remote side that accepts
    every request uploads every chunk and returns True with the session
    completed. *)
Theorem resume_saved_session_completes self (disk : gmap string pyval) session now detected :
  fromisoformat (isoformat (start_time session)) = Ok (start_time session) ->
  (forall history t c, remote history t c = Success) ->
  0 < max_retries self ->
  exists disk' session',
    save_session isoformat disk session = Ok disk' /\
    resume_upload fromisoformat remote choose self disk' (session_id session)
                  now detected
    = Ok (Some (mkManager (max_retries self) (sessions self) detected,
                true, Some session')) /\
    forallb uploaded (chunks session') = true /\
    completed session' = true.
Proof.
  intros Hiso Hok Hmr.
  destruct (save_then_load_roundtrip isoformat fromisoformat disk session Hiso)
    as (disk' & Hsave & Hload).
  exists disk'. unfold resume_upload. rewrite Hload. cbn -[parallel_upload].
  set (self' := mkManager (max_retries self) (sessions self) detected).
  destruct (accepted_run_final remote choose self' session 3 now disk'
              Hok ltac:(lia) Hmr) as (st & Hrun & Hall & _).
  rewrite Hrun. cbn -[parallel_upload]. rewrite Hall.
  eexists. split; [exact Hsave|]. split; [reflexivity|]. split; [exact Hall|reflexivity].
Qed.

End ResumeFacts.

(** ** Network probe *)

Lemma Qlt_bool_true x y : Qlt_bool x y = true -> (x < y)%Q.
Proof.
  unfold Qlt_bool. intros H. apply Qnot_le_lt. intros Hle.
  apply Qle_bool_iff in Hle. rewrite Hle in H. discriminate.
Qed.

Lemma Qlt_bool_false x y : Qlt_bool x y = false -> (y <= x)%Q.
Proof.
  unfold Qlt_bool. intros H. apply Qle_bool_iff.
  destruct (Qle_bool y x); [reflexivity|discriminate].
Qed.

Lemma classify_speed_mono s1 s2 :
  (s1 <= s2)%Q ->
  CHUNK_SIZES (classify_speed s1) <= CHUNK_SIZES (classify_speed s2).
Proof.
  intros Hle. unfold classify_speed.
  destruct (Qlt_bool s1 1) eqn:A1; destruct (Qlt_bool s1 5) eqn:A5;
    destruct (Qlt_bool s1 20) eqn:A20;
    destruct (Qlt_bool s2 1) eqn:B1; destruct (Qlt_bool s2 5) eqn:B5;
    destruct (Qlt_bool s2 20) eqn:B20;
    try (cbn; lia);
    exfalso;
    repeat match goal with
           | H : Qlt_bool _ _ = true |- _ => apply Qlt_bool_true in H
           | H : Qlt_bool _ _ = false |- _ => apply Qlt_bool_false in H
           end; lra.
Qed.

(** X11. The quicker the test upload, the larger the chunks: a probe that took
    no longer than another never leads to a smaller chunk size. *)
Theorem quicker_probe_never_smaller_chunks (e1 e2 : Q) :
  (0 < e1)%Q -> (e1 <= e2)%Q ->
  CHUNK_SIZES (analyze_network_speed (Some e2))
  <= CHUNK_SIZES (analyze_network_speed (Some e1)).
Proof.
  intros Hpos Hle. unfold analyze_network_speed. cbv zeta.
  assert (H1 : Qeq_bool e1 0 = false).
  { destruct (Qeq_bool e1 0) eqn:E; [|reflexivity].
    apply Qeq_bool_iff in E. lra. }
  assert (H2 : Qeq_bool e2 0 = false).
  { destruct (Qeq_bool e2 0) eqn:E; [|reflexivity].
    apply Qeq_bool_iff in E. lra. }
  rewrite H1, H2. apply classify_speed_mono.
  set (a := inject_Z (1024 * 100)). set (b := inject_Z (1024 * 1024)).
  assert (Ha : (0 <= a)%Q) by (unfold a, Qle; cbn; lia).
  assert (Hb : (0 <= / b)%Q)
    by (apply Qinv_le_0_compat; unfold b, Qle; cbn; lia).
  unfold Qdiv at 1 3. apply Qmult_le_compat_r; [|exact Hb].
  apply Qle_shift_div_r; [lra|].
  assert (Hx : (a / e1 * e1 == a)%Q) by (field; lra).
  assert (Hx0 : (0 <= a / e1)%Q).
  { apply Qle_shift_div_l; [exact Hpos|]. lra. }
  rewrite <- Hx at 1.
  apply Qmult_le_compat_nonneg; split; first [assumption | lra | apply Qle_refl].
Qed.

(** ** Repository analysis *)

Lemma analyze_file_spec stats f sz :
  0 <= sz ->
  let r := analyze_file stats f sz in
  Stats.total_files r = Stats.total_files stats + 1 /\
  Stats.total_size r = Stats.total_size stats + sz /\
  Stats.large_files r = Stats.large_files stats ++ List.filter is_large [(f, sz)] /\
  Stats.git_objects_size r = Stats.git_objects_size stats /\
  Stats.recommendations r = Stats.recommendations stats /\
  Stats.compressible_size stats <= Stats.compressible_size r /\
  Stats.binary_size stats <= Stats.binary_size r /\
  (Stats.compressible_size r - Stats.compressible_size stats)
    + (Stats.binary_size r - Stats.binary_size stats) <= sz.
Proof.
  intros Hsz. unfold analyze_file, is_large. cbv zeta.
  cbn [List.filter snd].
  destruct (ext_in (str_lower (path_suffix f)) SKIP_EXTENSIONS),
    (ext_in (str_lower (path_suffix f)) COMPRESSIBLE_EXTENSIONS),
    (ext_in (str_lower (path_suffix f)) BINARY_EXTENSIONS),
    (50 * 1024 * 1024 <? sz);
    cbn [negb andb Stats.total_files Stats.total_size Stats.large_files
         Stats.git_objects_size Stats.recommendations Stats.compressible_size
         Stats.binary_size];
    rewrite ?app_nil_r; repeat split; lia.
Qed.

Lemma sum_sizes_app a b : sum_sizes (a ++ b) = sum_sizes a + sum_sizes b.
Proof.
  unfold sum_sizes. induction a as [|x a IH]; cbn; [reflexivity|].
  rewrite IH. lia.
Qed.

Lemma analyze_files_spec fs entries :
  (forall f sz, fs !! f = Some sz -> 0 <= sz) ->
  forall stats,
    let r := analyze_files fs stats entries in
    let files := regular_files fs entries in
    Stats.total_files r = Stats.total_files stats + Z.of_nat (length files) /\
    Stats.total_size r = Stats.total_size stats + sum_sizes files /\
    Stats.large_files r = Stats.large_files stats ++ List.filter is_large files /\
    Stats.git_objects_size r = Stats.git_objects_size stats /\
    Stats.recommendations r = Stats.recommendations stats /\
    Stats.compressible_size stats <= Stats.compressible_size r /\
    Stats.binary_size stats <= Stats.binary_size r /\
    (Stats.compressible_size r - Stats.compressible_size stats)
      + (Stats.binary_size r - Stats.binary_size stats) <= sum_sizes files.
Proof.
  intros Hpos. induction entries as [|f entries IH]; intros stats.
  - cbn. rewrite app_nil_r. repeat split; lia.
  - cbn [analyze_files regular_files flat_map].
    destruct (fs !! f) as [sz|] eqn:E.
    + specialize (IH (analyze_file stats f sz)). cbv zeta in IH.
      destruct IH as (I1 & I2 & I3 & I4 & I5 & I6 & I7 & I8).
      fold (regular_files fs entries) in *.
      destruct (analyze_file_spec stats f sz (Hpos f sz E))
        as (J1 & J2 & J3 & J4 & J5 & J6 & J7 & J8).
      cbv zeta.
      rewrite length_app, List.filter_app, sum_sizes_app.
      assert (Hone : sum_sizes [(f, sz)] = sz) by (unfold sum_sizes; cbn; lia).
      rewrite Hone. cbn [length].
      split; [lia|]. split; [lia|].
      split; [rewrite I3, J3, <- app_assoc; reflexivity|].
      split; [lia|]. split; [congruence|].
      repeat split; lia.
    + cbn [app]. apply IH.
Qed.

(** X12. The totals of [analyze_repository], for sizes that are not negative:
    the files counted are the regular files under the directory, the total
    size is the sum of their sizes, and the compressible and the binary
    sizes are disjoint parts of it. *)
Theorem analyze_repository_totals fs (tree : gmap string (list string)) git_size repo_path :
  (forall f sz, fs !! f = Some sz -> 0 <= sz) ->
  let stats := analyze_repository fs tree git_size repo_path in
  let files := regular_files fs (match tree !! repo_path with
                                 | Some l => l | None => [] end) in
  Stats.total_files stats = Z.of_nat (length files) /\
  Stats.total_size stats = sum_sizes files /\
  0 <= Stats.compressible_size stats /\
  0 <= Stats.binary_size stats /\
  Stats.compressible_size stats + Stats.binary_size stats
    <= Stats.total_size stats /\
  Stats.git_objects_size stats = git_size.
Proof.
  intros Hpos stats files. subst stats. unfold analyze_repository. cbv zeta.
  destruct (analyze_files_spec fs
              (match tree !! repo_path with Some l => l | None => [] end) Hpos
              (Stats.mk 0 0 0 0 [] [] git_size []))
    as (I1 & I2 & I3 & I4 & I5 & I6 & I7 & I8).
  fold files in I1, I2, I3, I8.
  cbn [recommend Stats.total_files Stats.total_size Stats.compressible_size
       Stats.binary_size Stats.git_objects_size] in *.
  repeat split; lia.
Qed.

(** X13. The large files [analyze_repository] reports are the regular files of
    more than 50 MiB, in the order of the listing, and the recommendation
    that counts them is made exactly when there is one. *)
Theorem analyze_repository_large_files fs (tree : gmap string (list string)) git_size repo_path :
  (forall f sz, fs !! f = Some sz -> 0 <= sz) ->
  let stats := analyze_repository fs tree git_size repo_path in
  let large := List.filter is_large
                 (regular_files fs (match tree !! repo_path with
                                    | Some l => l | None => [] end)) in
  Stats.large_files stats = large /\
  (In ("Found " ++ str_of_int (Z.of_nat (length large))
         ++ " large files - will use adaptive chunking")%string
      (Stats.recommendations stats)
   <-> large <> []).
Proof.
  intros Hpos stats large. subst stats. unfold analyze_repository. cbv zeta.
  destruct (analyze_files_spec fs
              (match tree !! repo_path with Some l => l | None => [] end) Hpos
              (Stats.mk 0 0 0 0 [] [] git_size []))
    as (I1 & I2 & I3 & I4 & I5 & I6 & I7 & I8).
  cbn [Stats.large_files Stats.recommendations app] in I3, I5.
  fold large in I3.
  cbn [recommend Stats.large_files Stats.recommendations].
  rewrite I3, I5. split; [reflexivity|]. cbn [app].
  rewrite !in_app_iff. split.
  - intros [H|[H|H]].
    + destruct (Qlt_bool _ _) in H; [|inversion H].
      destruct H as [H|[]]. discriminate H.
    + destruct (Qlt_bool _ _) in H; [|inversion H].
      destruct H as [H|[]]. discriminate H.
    + destruct large; [inversion H|discriminate].
  - intros Hne. right. right.
    destruct large; [congruence|]. left. reflexivity.
Qed.

(** ** Session creation *)

(** A chunk as the planner makes it. *)
Lemma chunk_reads_fresh digest session path cs nc n :
  forall i f,
    Forall (fun c => uploaded c = false /\ retry_count c = 0 /\ upload_time c = None)
           (map snd (chunk_reads digest session path cs nc n i f)).
Proof.
  induction n as [|n IH]; intros i f; cbn [chunk_reads map]; [constructor|].
  destruct (f_read f cs) as [data f'] eqn:E. cbn [map snd].
  constructor; [cbn; auto | apply IH].
Qed.

Lemma plan_total digest speed file_size path session :
  0 <= file_size ->
  fold_right Z.add 0 (map size (map snd (plan_reads digest speed file_size path session)))
  = file_size.
Proof.
  intros Hsz. unfold plan_reads, f_open.
  pose proof (planned_chunk_size_pos speed file_size) as Hcs.
  pose proof (plan_reads_bounds speed file_size Hsz) as Hb. cbv zeta in Hb.
  rewrite chunk_reads_total; lia.
Qed.

Lemma sum_app (a b : list Z) :
  fold_right Z.add 0 (a ++ b) = fold_right Z.add 0 a + fold_right Z.add 0 b.
Proof. induction a as [|x a IH]; cbn; [reflexivity|]. rewrite IH. lia. Qed.

Section CreationFacts.

Variable digest : string -> extent -> string.
Variable isoformat : datetime -> string.
Variable fromisoformat : string -> result datetime.
Variable session_id_of : string -> datetime -> string.
Variable git_objects_size_of : string -> Z.
Variable compress_directory : string -> string * Z.

Lemma create_smart_chunks_present speed (fs : gmap string Z) path session sz :
  fs !! path = Some sz ->
  create_smart_chunks digest speed fs path session
  = Ok (map snd (plan_reads digest speed sz path session)) /\
  Forall fresh (map snd (plan_reads digest speed sz path session)) /\
  (0 <= sz ->
   fold_right Z.add 0 (map size (map snd (plan_reads digest speed sz path session)))
   = sz).
Proof.
  intros Hfs. unfold create_smart_chunks. rewrite Hfs.
  split; [reflexivity|]. split.
  - unfold plan_reads. apply chunk_reads_fresh.
  - apply plan_total.
Qed.

Lemma chunk_files_spec speed (fs : gmap string Z) session entries :
  exists cs,
    chunk_files digest speed fs session entries = Ok cs /\
    Forall fresh cs /\
    ((forall f sz, fs !! f = Some sz -> 0 <= sz) ->
     fold_right Z.add 0 (map size cs) = sum_sizes (regular_files fs entries)).
Proof.
  induction entries as [|f entries IH].
  - exists []. cbn. repeat split; auto.
  - destruct IH as (more & Hmore & Hfresh & Hsum).
    cbn [chunk_files regular_files flat_map].
    destruct (fs !! f) as [sz|] eqn:E.
    + destruct (create_smart_chunks_present speed fs f session sz E)
        as (Hc & Hcf & Hcs).
      rewrite Hc. cbn -[plan_reads]. rewrite Hmore. cbn -[plan_reads].
      eexists. split; [reflexivity|]. split.
      * apply Forall_app. split; assumption.
      * intros Hpos. fold (regular_files fs entries).
        rewrite map_app, sum_app.
        rewrite (Hcs (Hpos f sz E)), (Hsum Hpos).
        unfold sum_sizes. cbn [map fold_right snd]. lia.
    + exists more. cbn [app]. fold (regular_files fs entries). auto.
Qed.

Lemma session_chunks_ok speed (fs : gmap string Z) (tree : gmap string (list string))
    source session :
  exists cs,
    match fs !! source with
    | Some _ => create_smart_chunks digest speed fs source session
    | None => chunk_files digest speed fs session
                (match tree !! source with Some l => l | None => [] end)
    end = Ok cs /\ Forall fresh cs.
Proof.
  destruct (fs !! source) as [sz|] eqn:E.
  - destruct (create_smart_chunks_present speed fs source session sz E)
      as (Hc & Hf & _). eauto.
  - destruct (chunk_files_spec speed fs session
                (match tree !! source with Some l => l | None => [] end))
      as (cs & Hc & Hf & _). eauto.
Qed.

(** What [create_upload_session] does once the source and the chunks are
    settled. *)
Lemma create_upload_session_tail self (disk : gmap string pyval) sid repo source cs now2
    (fs : gmap string Z) :
  fromisoformat (isoformat now2) = Ok now2 ->
  let session := mkUploadSession sid repo source
                   (fold_right Z.add 0 (map size cs)) cs now2 false 0 in
  exists disk',
    (disk' ← save_session isoformat disk session;
     Ok (mkManager (max_retries self) (<[sid := session]> (sessions self))
                   (network_speed self), fs, disk', session))
    = Ok (mkManager (max_retries self) (<[sid := session]> (sessions self))
                    (network_speed self), fs, disk', session) /\
    load_session fromisoformat disk' sid = Ok (Some session).
Proof.
  intros Hiso session.
  destruct (save_then_load_roundtrip isoformat fromisoformat disk session Hiso)
    as (disk' & Hsave & Hload).
  exists disk'. rewrite Hsave. split; [reflexivity|exact Hload].
Qed.

Lemma create_upload_session_spec self (fs : gmap string Z)
    (tree : gmap string (list string)) (disk : gmap string pyval)
    now1 now2 source repo :
  fromisoformat (isoformat now2) = Ok now2 ->
  exists self' fs' disk' session,
    create_upload_session digest isoformat session_id_of git_objects_size_of
      compress_directory self fs tree disk now1 now2 source repo
    = Ok (self', fs', disk', session) /\
    session_id session = session_id_of source now1 /\
    repo_name session = repo /\ start_time session = now2 /\
    completed session = false /\ progress_percentage session = 0%Q /\
    total_size session = fold_right Z.add 0 (map size (chunks session)) /\
    Forall fresh (chunks session) /\
    sessions self' !! session_id session = Some session /\
    max_retries self' = max_retries self /\
    network_speed self' = network_speed self /\
    load_session fromisoformat disk' (session_id session) = Ok (Some session).
Proof.
  intros Hiso. unfold create_upload_session.
  set (sid := session_id_of source now1).
  destruct (match tree !! source with
            | Some _ =>
                if 10 * 1024 * 1024 <?
                   Stats.compressible_size
                     (analyze_repository fs tree (git_objects_size_of source) source)
                then let '(compressed_path, archive_size) :=
                       compress_directory source in
                     (compressed_path, <[compressed_path := archive_size]> fs)
                else (source, fs)
            | None => (source, fs)
            end) as [source' fs'].
  destruct (session_chunks_ok (network_speed self) fs' tree source' sid)
    as (cs & Hcs & Hfresh).
  rewrite Hcs. cbn -[save_session].
  destruct (create_upload_session_tail self disk sid repo source' cs now2 fs' Hiso)
    as (disk' & Heq & Hload).
  cbv zeta in Heq. rewrite Heq.
  eexists; eexists; eexists; eexists. split; [reflexivity|].
  cbn [session_id repo_name start_time completed progress_percentage total_size
       chunks sessions max_retries network_speed].
  repeat split; try assumption. apply lookup_insert_eq.
Qed.

(** X14. [create_upload_session] succeeds on every source. The session it
    returns is new (not completed, progress 0, every chunk to upload), its
    total size is the sum of its chunk sizes, it is registered in
    [self.sessions] under its identifier and saved, so that [load_session]
    finds it; given that [fromisoformat] reads back the start time. *)
Theorem create_upload_session_registers_and_saves self (fs : gmap string Z)
    (tree : gmap string (list string)) (disk : gmap string pyval)
    now1 now2 source repo :
  fromisoformat (isoformat now2) = Ok now2 ->
  exists self' fs' disk' session,
    create_upload_session digest isoformat session_id_of git_objects_size_of
      compress_directory self fs tree disk now1 now2 source repo
    = Ok (self', fs', disk', session) /\
    session_id session = session_id_of source now1 /\
    repo_name session = repo /\ start_time session = now2 /\
    completed session = false /\ progress_percentage session = 0%Q /\
    total_size session = fold_right Z.add 0 (map size (chunks session)) /\
    Forall fresh (chunks session) /\
    sessions self' !! session_id session = Some session /\
    max_retries self' = max_retries self /\
    network_speed self' = network_speed self /\
    load_session fromisoformat disk' (session_id session) = Ok (Some session).
Proof. apply create_upload_session_spec. Qed.

(** X15. For a regular file the session holds the plan of that file under the
    current network speed, and its total size is the size of the file. *)
Theorem create_upload_session_for_file self (fs : gmap string Z)
    (tree : gmap string (list string)) (disk : gmap string pyval)
    now1 now2 source repo file_size :
  fs !! source = Some file_size -> tree !! source = None -> 0 <= file_size ->
  fromisoformat (isoformat now2) = Ok now2 ->
  exists self' disk' session,
    create_upload_session digest isoformat session_id_of git_objects_size_of
      compress_directory self fs tree disk now1 now2 source repo
    = Ok (self', fs, disk', session) /\
    source_path session = source /\
    create_smart_chunks digest (network_speed self) fs source
                        (session_id_of source now1)
    = Ok (chunks session) /\
    total_size session = file_size.
Proof.
  intros Hfs Htree Hsz Hiso. unfold create_upload_session.
  rewrite Htree, Hfs.
  destruct (create_smart_chunks_present (network_speed self) fs source
              (session_id_of source now1) file_size Hfs) as (Hc & _ & Hsum).
  rewrite Hc. cbn -[save_session plan_reads].
  destruct (create_upload_session_tail self disk (session_id_of source now1) repo
              source
              (map snd (plan_reads digest (network_speed self) file_size source
                                   (session_id_of source now1)))
              now2 fs Hiso) as (disk' & Heq & _).
  cbv zeta in Heq. rewrite Heq.
  eexists; eexists; eexists. split; [reflexivity|].
  cbn [source_path chunks total_size].
  split; [reflexivity|]. split; [reflexivity|]. apply Hsum, Hsz.
Qed.

(** X16. For a directory: when the analysis finds more than 10 MiB of
    compressible content the session is that of the archive
    [compress_directory] writes (source path and total size are the
    archive's); otherwise the source stays the directory and the total size
    of the session is the total size the analysis reports. *)
Theorem create_upload_session_for_directory self (fs : gmap string Z)
    (tree : gmap string (list string)) (disk : gmap string pyval)
    now1 now2 source repo entries :
  tree !! source = Some entries -> fs !! source = None ->
  (forall f sz, fs !! f = Some sz -> 0 <= sz) ->
  0 <= snd (compress_directory source) ->
  fromisoformat (isoformat now2) = Ok now2 ->
  let stats := analyze_repository fs tree (git_objects_size_of source) source in
  exists self' fs' disk' session,
    create_upload_session digest isoformat session_id_of git_objects_size_of
      compress_directory self fs tree disk now1 now2 source repo
    = Ok (self', fs', disk', session) /\
    if 10 * 1024 * 1024 <? Stats.compressible_size stats
    then source_path session = fst (compress_directory source) /\
         total_size session = snd (compress_directory source) /\
         fs' = <[fst (compress_directory source) := snd (compress_directory source)]> fs
    else source_path session = source /\
         total_size session = Stats.total_size stats /\
         fs' = fs.
Proof.
  intros Htree Hfs Hpos Harch Hiso stats. unfold create_upload_session.
  rewrite Htree. fold stats.
  destruct (10 * 1024 * 1024 <? Stats.compressible_size stats).
  - destruct (compress_directory source) as [apath asize] eqn:Ec.
    cbn [fst snd] in *.
    assert (Ha : (<[apath := asize]> fs) !! apath = Some asize)
      by apply lookup_insert_eq.
    rewrite Ha.
    destruct (create_smart_chunks_present (network_speed self)
                (<[apath := asize]> fs) apath
                (session_id_of source now1) asize Ha) as (Hc & _ & Hsum).
    rewrite Hc. cbn -[save_session plan_reads].
    destruct (create_upload_session_tail self disk (session_id_of source now1) repo
                apath
                (map snd (plan_reads digest (network_speed self) asize apath
                                     (session_id_of source now1)))
                now2 (<[apath := asize]> fs) Hiso) as (disk' & Heq & _).
    cbv zeta in Heq. rewrite Heq.
    eexists; eexists; eexists; eexists. split; [reflexivity|].
    cbn [source_path total_size].
    split; [reflexivity|]. split; [apply Hsum, Harch|reflexivity].
  - rewrite Hfs, Htree.
    destruct (chunk_files_spec (network_speed self) fs
                (session_id_of source now1) entries) as (cs & Hc & _ & Hsum).
    rewrite Hc. cbn -[save_session].
    destruct (create_upload_session_tail self disk (session_id_of source now1) repo
                source cs now2 fs Hiso) as (disk' & Heq & _).
    cbv zeta in Heq. rewrite Heq.
    eexists; eexists; eexists; eexists. split; [reflexivity|].
    cbn [source_path total_size].
    split; [reflexivity|]. split; [|reflexivity].
    rewrite (Hsum Hpos). subst stats. unfold analyze_repository. rewrite Htree.
    destruct (analyze_files_spec fs entries Hpos
                (Stats.mk 0 0 0 0 [] [] (git_objects_size_of source) []))
      as (_ & I2 & _).
    cbn [recommend Stats.total_size] in *. lia.
Qed.

End CreationFacts.

(** ** Status report: estimates *)


Lemma Qlt_bool_intro x y : (x < y)%Q -> Qlt_bool x y = true.
Proof.
  intros H. unfold Qlt_bool. destruct (Qle_bool y x) eqn:E; [|reflexivity].
  apply Qle_bool_iff in E. lra.
Qed.

Section EstimateFacts.

Variable fromisoformat : string -> result datetime.
Variable str_timedelta : Z -> string.


End EstimateFacts.

(** ** Creating, reporting and resuming *)

Lemma filter_uploaded_fresh cs : Forall fresh cs -> List.filter uploaded cs = [].
Proof.
  induction 1 as [|c cs Hc _ IH]; [reflexivity|].
  cbn. destruct Hc as [-> _]. exact IH.
Qed.

Section LifeCycle.

Variable digest : string -> extent -> string.
Variable isoformat : datetime -> string.
Variable fromisoformat : string -> result datetime.
Variable session_id_of : string -> datetime -> string.
Variable git_objects_size_of : string -> Z.
Variable compress_directory : string -> string * Z.
Variable str_timedelta : Z -> string.
Variable remote : list event -> Q -> ChunkInfo -> outcome.
Variable choose : list nat -> nat.

(** X18. The report on a session that was just created: it is found, nothing is
    uploaded, every chunk is counted, the estimate is zero seconds and the
    session is not completed (the time since its creation being one
    [timedelta] holds). *)
Theorem status_of_created_session self (fs : gmap string Z)
    (tree : gmap string (list string)) (disk : gmap string pyval)
    now1 now2 now source repo :
  fromisoformat (isoformat now2) = Ok now2 ->
  timedelta_in_range (int_of_float (inject_Z (now - now2) / 1000000)) = true ->
  exists self' fs' disk' session status,
    create_upload_session digest isoformat session_id_of git_objects_size_of
      compress_directory self fs tree disk now1 now2 source repo
    = Ok (self', fs', disk', session) /\
    get_session_status fromisoformat str_timedelta self' disk' now
                       (session_id session) = Ok status /\
    dict_get status "error" = None /\
    dict_get status "uploaded_chunks" = Some (PInt 0) /\
    dict_get status "total_chunks"
      = Some (PInt (Z.of_nat (length (chunks session)))) /\
    dict_get status "eta" = Some (PStr (str_timedelta 0)) /\
    dict_get status "completed" = Some (PBool false).
Proof.
  intros Hiso Hrange.
  destruct (create_upload_session_spec digest isoformat fromisoformat session_id_of
              git_objects_size_of compress_directory self fs tree disk
              now1 now2 source repo Hiso)
    as (self' & fs' & disk' & session & Hc & _ & _ & Hstart & Hdone & _ & _ & Hfresh
        & Hreg & _).
  exists self', fs', disk', session.
  unfold get_session_status. rewrite Hreg.
  cbn -[timedelta_in_range int_of_float Qlt_bool Qdiv inject_Z Z.sub Z.ltb].
  unfold uploaded_count, timedelta_str.
  rewrite (filter_uploaded_fresh _ Hfresh), Hstart, Hrange, Hdone.
  cbn -[int_of_float Qdiv inject_Z Z.sub].
  eexists. split; [exact Hc|]. split; [reflexivity|].
  repeat split; reflexivity.
Qed.

(** X19. A session that was just created can be resumed from disk under its
    identifier: against a remote side that accepts every request the
    resume returns True, with every chunk uploaded and the session
    completed. *)
Theorem created_session_resumes_to_completion self (fs : gmap string Z)
    (tree : gmap string (list string)) (disk : gmap string pyval)
    now1 now2 now detected source repo :
  fromisoformat (isoformat now2) = Ok now2 ->
  (forall history t c, remote history t c = Success) ->
  0 < max_retries self ->
  exists self' fs' disk' session self'' session',
    create_upload_session digest isoformat session_id_of git_objects_size_of
      compress_directory self fs tree disk now1 now2 source repo
    = Ok (self', fs', disk', session) /\
    resume_upload fromisoformat remote choose self' disk' (session_id session)
                  now detected
    = Ok (Some (self'', true, Some session')) /\
    forallb uploaded (chunks session') = true /\
    completed session' = true /\
    session_id session' = session_id session.
Proof.
  intros Hiso Hok Hmr.
  destruct (create_upload_session_spec digest isoformat fromisoformat session_id_of
              git_objects_size_of compress_directory self fs tree disk
              now1 now2 source repo Hiso)
    as (self' & fs' & disk' & session & Hc & _ & _ & _ & _ & _ & _ & _
        & _ & Hmr' & _ & Hload).
  exists self', fs', disk', session.
  unfold resume_upload. rewrite Hload. cbn -[parallel_upload].
  set (self2 := mkManager (max_retries self') (sessions self') detected).
  destruct (parallel_upload_final remote choose self2 session 3 now disk'
              ltac:(lia)) as (st & Hrun & Hinv & Hf & _).
  destruct (accepted_run_final remote choose self2 session 3 now disk'
              Hok ltac:(lia) ltac:(cbn; lia)) as (st' & Hrun' & Hall & _).
  rewrite Hrun in Hrun'. inversion Hrun'; subst st'.
  rewrite Hrun. cbn -[parallel_upload]. rewrite Hall.
  eexists; eexists. split; [exact Hc|]. split; [reflexivity|].
  split; [exact Hall|]. split; [reflexivity|].
  cbn [with_completed session_id]. apply (lf_identity _ _ _ _ Hf).
Qed.

End LifeCycle.

(** ** Waiting between attempts *)

Lemma not_before_mono k t o u u' :
  not_before k t o u -> (u <= u')%Q -> not_before k t o u'.
Proof.
  intros [H1 H2] Hu. split; [eapply Qle_trans; eauto|].
  destruct o; [exact I | eapply Qle_trans; eauto | eapply Qle_trans; eauto].
Qed.

Lemma well_spaced_app a b :
  well_spaced (a ++ b) <->
  well_spaced a /\ well_spaced b /\ Forall (fun e => Forall (spaced e) b) a.
Proof.
  induction a as [|e a IH]; cbn [app well_spaced].
  - split; [intros H; repeat split; [exact H | constructor] | tauto].
  - rewrite IH, Forall_app, Forall_cons. tauto.
Qed.

Lemma attempt_in_outcomes p k t o tr :
  In (EvAttempt p k t o) tr -> outcomes_of p tr <> [].
Proof.
  induction tr as [|e tr IH]; [intros []|].
  intros [->|Hin].
  - cbn. rewrite Nat.eqb_refl. discriminate.
  - change (e :: tr) with ([e] ++ tr). rewrite outcomes_of_app.
    intros H. apply app_eq_nil in H. destruct H as [_ H]. exact (IH Hin H).
Qed.

Section SchedulerTiming.

Variable remote : list event -> Q -> ChunkInfo -> outcome.
Variable choose : list nat -> nat.
Variable self : SmartUploadManager.

(** The events of one resumption of [upload_chunk_to_github], and the wait
    its task then takes. *)
Lemma upload_chunk_to_github_events now hist pos c k :
  let r := upload_chunk_to_github remote self now hist pos c k in
  (snd r = [EvReturn pos now false] /\ snd (fst r) = Finished false) \/
  (exists o rest,
     snd r = EvAttempt pos k now o :: rest /\
     (rest = [] \/ exists b, rest = [EvReturn pos now b]) /\
     forall u k', snd (fst r) = Sleeping u k' -> not_before k now o u).
Proof.
  cbv zeta. unfold upload_chunk_to_github.
  destruct (k <? max_retries self); [|left; split; reflexivity].
  right.
  destruct (remote hist now c) as [|reset|].
  - exists Success, [EvReturn pos now true]. cbn.
    split; [reflexivity|]. split; [right; eauto|]. intros u k' H; discriminate.
  - exists (RateLimited reset), []. cbn.
    split; [reflexivity|]. split; [left; reflexivity|].
    intros u k' H. inversion H; subst u k'. clear H.
    destruct (Qle_bool (reset - now) 0) eqn:E.
    + apply Qle_bool_iff in E. split; [apply Qle_refl|]. lra.
    + assert (~ (reset - now <= 0)%Q)
        by (intros H; apply Qle_bool_iff in H; congruence).
      split; lra.
  - assert (Hp : (0 <= inject_Z (2 ^ k))%Q).
    { change 0%Q with (inject_Z 0). rewrite <- Zle_Qle. apply Z.pow_nonneg. lia. }
    destruct (k <? max_retries self - 1).
    + exists OtherError, []. cbn.
      split; [reflexivity|]. split; [left; reflexivity|].
      intros u k' H. inversion H; subst u k'. split; lra.
    + exists OtherError, [EvReturn pos now false]. cbn.
      split; [reflexivity|]. split; [right; eauto|]. intros u k' H; discriminate.
Qed.

(** A task that runs no sooner than its sleep ends keeps the timing. *)
Lemma run_task_timing session st i t pos ts :
  loop_facts remote self session st ->
  loop_timing st ->
  ls_tasks st !! i = Some (pos, ts) ->
  (forall b, ts <> Finished b) ->
  (forall u k, ts = Sleeping u k -> (u <= t)%Q) ->
  loop_timing (run_task remote self i t st).
Proof.
  intros Hf Ht Hi Hts Hwake.
  destruct (lf_task _ _ _ _ Hf i pos ts Hi) as (c0 & c & Hc0 & Hc & Hfact).
  rewrite (run_task_eq remote self _ _ _ _ _ _ Hi Hts Hc). cbv zeta.
  set (enter := match ts with Waiting => [EvAcquire pos t] | _ => [] end).
  set (k := match ts with Sleeping _ k => k | _ => 0 end).
  pose proof (upload_chunk_to_github_events t (ls_trace st ++ enter) pos c k) as Hev.
  cbv zeta in Hev.
  destruct (upload_chunk_to_github remote self t (ls_trace st ++ enter) pos c k)
    as [[c' ts'] evs]. cbn [fst snd] in *.
  assert (Hlt : (i < length (ls_tasks st))%nat) by (eapply lookup_lt_Some; eauto).
  (* what is on record for the chunk asks for no wait beyond [t] *)
  assert (Hold : Forall (rests_until pos t) (ls_trace st)).
  { destruct ts as [|u k0|b].
    - destruct Hfact as (_ & _ & _ & _ & _ & _ & _ & _ & _ & Hos).
      apply Forall_forall. intros e He.
      destruct e as [| p j t0 o0 | |]; cbn; try exact I.
      intros ->. exfalso.
      apply list_elem_of_In in He.
      exact (attempt_in_outcomes _ _ _ _ _ He Hos).
    - pose proof (lt_sleep _ Ht i pos u k0 Hi) as Hs.
      eapply Forall_impl; [exact Hs|].
      intros e He. destruct e as [| p j t0 o0 | |]; cbn in *; try exact I.
      intros Hp. eapply not_before_mono; [apply He; exact Hp|].
      apply (Hwake u k0 eq_refl).
    - exfalso. eapply Hts; eauto. }
  assert (Henter : forall P : event -> Prop,
             (forall p t0, P (EvAcquire p t0)) -> Forall P enter).
  { intros P HP. subst enter. destruct ts; repeat constructor; apply HP. }
  assert (Hothers : forall j pj u kj, j <> i ->
             ls_tasks st !! j = Some (pj, Sleeping u kj) -> pj <> pos).
  { intros j pj u kj Hne Hj ->. apply Hne.
    eapply (NoDup_lookup _ _ _ _ (lf_nodup _ _ _ _ Hf));
      rewrite lookup_map; [rewrite Hj|rewrite Hi]; reflexivity. }
  constructor; cbn [ls_tasks ls_trace].
  - (* the record stays well spaced *)
    apply well_spaced_app. split; [|split].
    + apply well_spaced_app. split; [apply (lt_spaced _ Ht)|]. split.
      * subst enter. destruct ts; cbn; repeat constructor.
      * apply Forall_forall. intros e _. apply Henter.
        intros p t0. destruct e; exact I.
    + destruct Hev as [[-> _]|(o & rest & -> & Hrest & _)].
      * cbn. repeat constructor.
      * destruct Hrest as [->|[b ->]]; cbn; repeat constructor.
    + apply Forall_app. split.
      * eapply Forall_impl; [exact Hold|].
        intros e He.
        destruct Hev as [[-> _]|(o & rest & -> & Hrest & _)].
        -- repeat constructor. destruct e; exact I.
        -- constructor.
           ++ destruct e as [| p j t0 o0 | |]; cbn in *; try exact I.
              exact He.
           ++ destruct Hrest as [->|[b ->]]; repeat constructor.
              destruct e; exact I.
      * apply Henter. intros p t0. apply Forall_forall. intros e' _.
        destruct e'; exact I.
  - (* every sleeper covers what is on record for its chunk *)
    intros j pj u kj Hj.
    destruct (decide (j = i)) as [->|Hne].
    + rewrite list_lookup_insert_eq in Hj by exact Hlt.
      inversion Hj; subst pj ts'. clear Hj.
      destruct Hev as [[_ Hfin]|(o & rest & -> & Hrest & Hsleep)];
        [discriminate|].
      pose proof (Hsleep u kj eq_refl) as Hnb.
      apply Forall_app. split; [apply Forall_app; split|].
      * eapply Forall_impl; [exact Hold|].
        intros e He. destruct e as [| p j t0 o0 | |]; cbn in *; try exact I.
        intros Hp. eapply not_before_mono; [apply He; exact Hp|].
        apply Hnb.
      * apply Henter. intros p t0. exact I.
      * constructor; [intros _; exact Hnb|].
        destruct Hrest as [->|[b ->]]; repeat constructor.
    + rewrite list_lookup_insert_ne in Hj by congruence.
      pose proof (Hothers j pj u kj Hne Hj) as Hpne.
      apply Forall_app. split; [apply Forall_app; split|].
      * apply (lt_sleep _ Ht j pj u kj Hj).
      * apply Henter. intros p t0. exact I.
      * destruct Hev as [[-> _]|(o & rest & -> & Hrest & _)].
        -- repeat constructor.
        -- constructor; [intros Hp; congruence|].
           destruct Hrest as [->|[b ->]]; repeat constructor.
Qed.

Lemma main_step_timing st : loop_timing st -> loop_timing (main_step st).
Proof.
  intros Ht. constructor; cbn [main_step ls_tasks ls_trace].
  - apply well_spaced_app. split; [apply (lt_spaced _ Ht)|]. split.
    + cbn. repeat constructor.
    + apply Forall_forall. intros e _. repeat constructor. destruct e; exact I.
  - intros j pos u k Hj. apply Forall_app.
    split; [apply (lt_sleep _ Ht j pos u k Hj)|repeat constructor].
Qed.

Lemma step_timing session st st' :
  loop_facts remote self session st ->
  loop_timing st ->
  step remote choose self st = Some st' ->
  loop_timing st'.
Proof.
  intros Hf Ht Hstep. unfold step in Hstep.
  destruct (candidates st) as [|first rest] eqn:Hc.
  - destruct (earliest_sleeper (ls_tasks st) 0) as [[i t]|] eqn:E; [|discriminate].
    inversion Hstep; subst st'.
    apply earliest_sleeper_Some in E. destruct E as (pos & k & _ & Hi).
    rewrite Nat.sub_0_r in Hi.
    apply (run_task_timing session st i t pos (Sleeping t k) Hf Ht Hi).
    + discriminate.
    + intros u k' H. inversion H; subst. apply Qle_refl.
  - assert (Hin : pick choose (first :: rest) first ∈ candidates st).
    { rewrite Hc. apply pick_in. left. }
    set (i := pick choose (first :: rest) first) in *.
    unfold candidates in Hin. apply elem_of_app in Hin.
    destruct (Nat.eqb_spec i (length (ls_tasks st))) as [Heq|Hne];
      inversion Hstep; subst st'.
    + apply main_step_timing. exact Ht.
    + destruct Hin as [Hin|Hin].
      * apply elem_of_ready_tasks in Hin. destruct Hin as (pos & ts & Hi & Hr).
        apply (run_task_timing session st i (ls_now st) pos ts Hf Ht Hi).
        -- intros b ->. discriminate.
        -- intros u k ->. cbn in Hr. apply Qle_bool_iff in Hr. exact Hr.
      * destruct (main_ready st); [|inversion Hin].
        apply list_elem_of_singleton in Hin. contradiction.
Qed.

Lemma run_timing session mc disk fuel :
  forall st, loop_inv self session mc disk st ->
             loop_facts remote self session st ->
             loop_timing st ->
             loop_timing (run remote choose self fuel st).
Proof.
  induction fuel as [|fuel IH]; intros st Hinv Hf Ht; cbn [run]; [exact Ht|].
  destruct (step remote choose self st) as [st'|] eqn:E; [|exact Ht].
  apply IH.
  - eapply step_inv; eauto.
  - eapply step_facts; eauto.
  - eapply step_timing; eauto.
Qed.

Lemma initial_loop_timing session mc now disk :
  loop_timing (initial_loop session mc now disk).
Proof.
  constructor; cbn [initial_loop ls_tasks ls_trace].
  - exact I.
  - intros j pos u k Hj. constructor.
Qed.

(** X20. A task waits as [upload_chunk_to_github] tells it to: of two attempts
    for the same chunk, the later one comes no sooner than [2 ** attempt]
    seconds after the earlier one when that ended in an error, and no
    sooner than the reset time when it was rate limited. *)
Theorem retries_wait_for_backoff_and_reset session max_concurrent now disk fuel
    l1 l2 l3 p k t o k' t' o' :
  0 <= max_concurrent ->
  let st := run remote choose self fuel
                (initial_loop session max_concurrent now disk) in
  ls_trace st = l1 ++ EvAttempt p k t o :: l2 ++ EvAttempt p k' t' o' :: l3 ->
  (t <= t')%Q /\
  match o with
  | OtherError => (t + inject_Z (2 ^ k) <= t')%Q
  | RateLimited reset => (reset <= t')%Q
  | Success => True
  end.
Proof.
  intros Hmc st Htr.
  assert (Ht : loop_timing st).
  { apply (run_timing session max_concurrent disk).
    - apply initial_loop_inv.
    - apply initial_loop_facts. exact Hmc.
    - apply initial_loop_timing. }
  pose proof (lt_spaced _ Ht) as Hs. rewrite Htr in Hs.
  apply well_spaced_app in Hs. destruct Hs as (_ & Hs & _).
  cbn [well_spaced] in Hs. destruct Hs as [Hs _].
  apply Forall_app in Hs. destruct Hs as [_ Hs].
  apply Forall_cons in Hs. destruct Hs as [Hs _].
  exact (Hs eq_refl).
Qed.

(** X21. At any point of a run the session is the one that was given, but for
    the upload marks of its chunks and its progress: identifier, target
    repository, source path, total size, start time and number of chunks
    are untouched. *)
Theorem run_keeps_session_identity session max_concurrent now disk fuel :
  0 <= max_concurrent ->
  let st := run remote choose self fuel
                (initial_loop session max_concurrent now disk) in
  session_id (ls_session st) = session_id session /\
  repo_name (ls_session st) = repo_name session /\
  source_path (ls_session st) = source_path session /\
  total_size (ls_session st) = total_size session /\
  start_time (ls_session st) = start_time session /\
  length (chunks (ls_session st)) = length (chunks session).
Proof.
  intros Hmc st.
  destruct (reachable_facts remote choose self session max_concurrent now disk
              fuel Hmc) as [Hinv Hf].
  fold st in Hinv, Hf.
  destruct (lf_identity _ _ _ _ Hf) as (H1 & H2 & H3 & H4 & H5).
  pose proof (inv_length _ _ _ _ _ Hinv).
  repeat split; assumption.
Qed.

End SchedulerTiming.

(** ** Chunk identifiers *)

Lemma str_of_int_inj (a b : Z) :
  0 <= a -> 0 <= b -> str_of_int a = str_of_int b -> a = b.
Proof.
  assert (Hpos : forall p q,
            NilEmpty.string_of_uint (Pos.to_uint p)
            = NilEmpty.string_of_uint (Pos.to_uint q) -> p = q).
  { intros p q H. apply (f_equal NilEmpty.uint_of_string) in H.
    rewrite !NilEmpty.usu in H. inversion H as [H'].
    apply (f_equal Pos.of_uint) in H'.
    rewrite !DecimalPos.Unsigned.of_to in H'. congruence. }
  assert (Hzero : forall p, "0" <> NilEmpty.string_of_uint (Pos.to_uint p)).
  { intros p H. apply (f_equal NilEmpty.uint_of_string) in H.
    rewrite NilEmpty.usu in H. cbn in H. inversion H as [H'].
    apply (f_equal Pos.of_uint) in H'.
    rewrite DecimalPos.Unsigned.of_to in H'. discriminate. }
  intros Ha Hb H. destruct a as [|p|p], b as [|q|q]; try lia; cbn in H.
  - exfalso. exact (Hzero q H).
  - exfalso. symmetry in H. exact (Hzero p H).
  - f_equal. apply Hpos. exact H.
Qed.

Lemma append_inv_head (s a b : string) : (s ++ a = s ++ b)%string -> a = b.
Proof.
  induction s as [|c s IH]; cbn; [auto|]. intros H. inversion H. auto.
Qed.

Section ChunkIds.

Variable digest : string -> extent -> string.

(** The identifier the planning loop gives in iteration [i + k]. *)
Lemma chunk_reads_chunk_id session path cs nc n :
  forall i f k e c,
    chunk_reads digest session path cs nc n i f !! k = Some (e, c) ->
    chunk_id c
    = (session ++ "_" ++ path_name path ++ "_" ++ str_of_int (i + Z.of_nat k))%string.
Proof.
  induction n as [|n IH]; intros i f k e c Hk; [destruct k; discriminate|].
  cbn [chunk_reads] in Hk. destruct (f_read f cs) as [d f'].
  destruct k as [|k]; cbn in Hk.
  - inversion Hk; subst. cbn. rewrite Z.add_0_r. reflexivity.
  - apply IH in Hk. rewrite Hk.
    replace (i + 1 + Z.of_nat k) with (i + Z.of_nat (S k)) by lia. reflexivity.
Qed.

Lemma create_smart_chunks_chunk_id speed (fs : gmap string Z) path session cs k c :
  create_smart_chunks digest speed fs path session = Ok cs ->
  cs !! k = Some c ->
  chunk_id c
  = (session ++ "_" ++ path_name path ++ "_" ++ str_of_int (Z.of_nat k))%string.
Proof.
  unfold create_smart_chunks. intros Hcs Hk.
  destruct (fs !! path) as [sz|]; [|discriminate].
  inversion Hcs; subst cs. rewrite lookup_map in Hk.
  destruct (plan_reads digest speed sz path session !! k) as [[e c']|] eqn:E;
    inversion Hk; subst c'.
  unfold plan_reads in E. apply chunk_reads_chunk_id in E. exact E.
Qed.

(** X22. The chunks planned for one file have pairwise different
    identifiers. *)
Theorem chunk_ids_differ_within_file speed (fs : gmap string Z) path session cs :
  create_smart_chunks digest speed fs path session = Ok cs ->
  forall k1 k2 c1 c2,
    cs !! k1 = Some c1 -> cs !! k2 = Some c2 -> k1 <> k2 ->
    chunk_id c1 <> chunk_id c2.
Proof.
  intros Hcs k1 k2 c1 c2 H1 H2 Hne Hid. apply Hne.
  rewrite (create_smart_chunks_chunk_id speed fs path session cs k1 c1 Hcs H1) in Hid.
  rewrite (create_smart_chunks_chunk_id speed fs path session cs k2 c2 Hcs H2) in Hid.
  do 4 apply append_inv_head in Hid.
  apply str_of_int_inj in Hid; lia.
Qed.

(** X23. A chunk identifier names the file by the last component of its
    path only: in one session, two files of the same name (in different
    directories) get the same identifiers, position by position. *)
Theorem chunk_ids_collide_for_same_file_name speed (fs : gmap string Z)
    path1 path2 session cs1 cs2 k c1 c2 :
  path_name path1 = path_name path2 ->
  create_smart_chunks digest speed fs path1 session = Ok cs1 ->
  create_smart_chunks digest speed fs path2 session = Ok cs2 ->
  cs1 !! k = Some c1 -> cs2 !! k = Some c2 ->
  chunk_id c1 = chunk_id c2.
Proof.
  intros Hname Hcs1 Hcs2 H1 H2.
  rewrite (create_smart_chunks_chunk_id speed fs path1 session cs1 k c1 Hcs1 H1).
  rewrite (create_smart_chunks_chunk_id speed fs path2 session cs2 k c2 Hcs2 H2).
  rewrite Hname. reflexivity.
Qed.

(** X24. For a file of up to 100 MiB, and under the network speed the plan
    was made with, [upload_chunk_to_github] reads for every chunk the block
    its checksum was taken from: [size] bytes from byte
    [chunk_index * CHUNK_SIZES[network_speed]] on. *)
Theorem upload_reads_planned_block_up_to_100MiB speed (fs : gmap string Z)
    path session file_size cs k c :
  fs !! path = Some file_size -> 0 <= file_size <= 100 * MiB ->
  create_smart_chunks digest speed fs path session = Ok cs ->
  cs !! k = Some c ->
  exists e,
    upload_read speed fs c = Ok e /\
    checksum c = digest path e /\
    ext_offset e = Z.of_nat k * CHUNK_SIZES speed /\
    ext_length e = size c /\
    ext_offset e + ext_length e <= file_size.
Proof.
  intros Hfs Hsz Hcs Hk. unfold create_smart_chunks in Hcs. rewrite Hfs in Hcs.
  inversion Hcs; subst cs. rewrite lookup_map in Hk.
  destruct (plan_reads digest speed file_size path session !! k) as [[e c']|] eqn:E;
    inversion Hk; subst c'.
  exists e.
  split; [apply (upload_read_agrees_up_to_100MiB digest speed fs path session
                   file_size k e c Hfs Hsz E)|].
  pose proof (planned_chunk_size_pos speed file_size) as Hpos.
  pose proof (plan_reads_bounds speed file_size ltac:(lia)) as Hb; cbv zeta in Hb.
  assert (Hbase : planned_chunk_size speed file_size = CHUNK_SIZES speed).
  { unfold planned_chunk_size.
    destruct (Z.ltb_spec (100 * 1024 * 1024) file_size); [|reflexivity].
    unfold MiB in Hsz; lia. }
  unfold plan_reads, f_open in E.
  apply chunk_reads_lookup in E; [|lia..].
  destruct E as (Ho & Hl & Hp & Hi & _ & Hs & Hck & _).
  rewrite <- Hbase. repeat split; try assumption; try lia.
Qed.

End ChunkIds.

(** * Instances *)

(** The theorems above that have a premise, each at an input that meets
    it. *)

Lemma semaphore_bounds_running_uploads_witness :
  0 <= 3 /\
  (let st := run always_success fifo (example_manager ∅) 1
               (initial_loop
                  (example_session [example_chunk 0 false; example_chunk 1 false])
                  3 0 ∅) in
   0 <= ls_permits st /\
   Z.of_nat (list_sum (map holding (ls_tasks st))) <= 3).
Proof.
  split; [lia|].
  apply (semaphore_bounds_running_uploads always_success fifo (example_manager ∅)
           (example_session [example_chunk 0 false; example_chunk 1 false])
           3 0 ∅ 1).
  lia.
Defined.

Lemma attempts_per_chunk_bounded_witness :
  0 <= 3 /\
  (let st := run always_error fifo (example_manager ∅) 5
               (initial_loop
                  (example_session [example_chunk 0 false; example_chunk 1 false])
                  3 0 ∅) in
   Z.of_nat (length (outcomes_of 0 (ls_trace st)))
   <= Z.max 0 (max_retries (example_manager ∅))).
Proof.
  split; [lia|].
  apply (attempts_per_chunk_bounded always_error fifo (example_manager ∅)
           (example_session [example_chunk 0 false; example_chunk 1 false])
           3 0 ∅ 5 0%nat).
  lia.
Defined.

Lemma run_counts_failed_attempts_witness :
  let session := example_session [example_chunk 0 false; example_chunk 1 false] in
  let c0 := example_chunk 0 false in
  0 <= 3 /\ chunks session !! 0%nat = Some c0 /\
  (let st := run always_error fifo (example_manager ∅) 5
               (initial_loop session 3 0 ∅) in
   exists c,
     chunks (ls_session st) !! 0%nat = Some c /\
     chunk_id c = chunk_id c0 /\ file_path c = file_path c0 /\
     chunk_index c = chunk_index c0 /\ total_chunks c = total_chunks c0 /\
     size c = size c0 /\ checksum c = checksum c0 /\
     retry_count c
       = retry_count c0
         + Z.of_nat (length (List.filter is_error (outcomes_of 0 (ls_trace st))))).
Proof.
  split; [lia|]. split; [reflexivity|].
  apply (run_counts_failed_attempts always_error fifo (example_manager ∅)
           (example_session [example_chunk 0 false; example_chunk 1 false])
           3 0 ∅ 5 0%nat (example_chunk 0 false)); [lia | reflexivity].
Defined.

Lemma uploaded_only_after_success_witness :
  let session := example_session [example_chunk 0 true; example_chunk 1 false] in
  let c0 := example_chunk 1 false in
  0 <= 3 /\ chunks session !! 1%nat = Some c0 /\
  (let st := run always_success fifo (example_manager ∅) 5
               (initial_loop session 3 0 ∅) in
   exists c,
     chunks (ls_session st) !! 1%nat = Some c /\
     uploaded c
       = uploaded c0 || existsb is_success (outcomes_of 1 (ls_trace st)) /\
     (uploaded c = false -> upload_time c = upload_time c0)).
Proof.
  split; [lia|]. split; [reflexivity|].
  apply (uploaded_only_after_success always_success fifo (example_manager ∅)
           (example_session [example_chunk 0 true; example_chunk 1 false])
           3 0 ∅ 5 1%nat (example_chunk 1 false)); [lia | reflexivity].
Defined.

Lemma run_gives_up_after_max_retries_witness :
  let session := example_session [example_chunk 0 false; example_chunk 1 false] in
  0 < 3 /\
  exists st,
    parallel_upload always_error fifo (example_manager ∅) session 3 0 ∅
      = Ok (Some st) /\
    forall p c0, chunks session !! p = Some c0 -> uploaded c0 = false ->
      exists c, chunks (ls_session st) !! p = Some c /\
        (uploaded c = true \/
         Z.of_nat (length (outcomes_of p (ls_trace st)))
           = Z.max 0 (max_retries (example_manager ∅))).
Proof.
  split; [lia|].
  apply (run_gives_up_after_max_retries always_error fifo (example_manager ∅)
           (example_session [example_chunk 0 false; example_chunk 1 false])
           3 0 ∅).
  lia.
Defined.

Lemma accepted_run_uploads_everything_witness :
  let session := example_session [example_chunk 0 true; example_chunk 1 false] in
  (forall history t c, always_success history t c = Success) /\
  0 < 3 /\ 0 < max_retries (example_manager ∅) /\
  exists st,
    parallel_upload always_success fifo (example_manager ∅) session 3 0 ∅
      = Ok (Some st) /\
    forallb uploaded (chunks (ls_session st)) = true /\
    (pending_positions (chunks session) <> [] ->
     (progress_percentage (ls_session st) == 100)%Q).
Proof.
  split; [intros; reflexivity|]. split; [lia|]. split; [reflexivity|].
  apply (accepted_run_uploads_everything always_success fifo (example_manager ∅)
           (example_session [example_chunk 0 true; example_chunk 1 false])
           3 0 ∅); [intros; reflexivity | lia | reflexivity].
Defined.

Lemma parallel_upload_with_nothing_pending_witness :
  let session := example_session [example_chunk 0 true] in
  forallb uploaded (chunks session) = true /\ 0 <= 3 /\
  parallel_upload always_success fifo (example_manager ∅) session 3 0 ∅
  = Ok (Some (mkLoop 0 3 [] session 0 [] ∅)).
Proof.
  split; [reflexivity|]. split; [lia|].
  apply (parallel_upload_with_nothing_pending always_success fifo
           (example_manager ∅) (example_session [example_chunk 0 true]) 3 0 ∅);
    [reflexivity | lia].
Defined.

Lemma parallel_upload_without_permit_blocks_witness :
  let session := example_session [example_chunk 0 true; example_chunk 1 false] in
  forallb uploaded (chunks session) = false /\
  parallel_upload always_success fifo (example_manager ∅) session 0 0 ∅ = Ok None.
Proof.
  split; [reflexivity|].
  apply (parallel_upload_without_permit_blocks always_success fifo
           (example_manager ∅)
           (example_session [example_chunk 0 true; example_chunk 1 false]) 0 ∅).
  reflexivity.
Defined.

Lemma resume_saved_session_completes_witness :
  let session := example_session [example_chunk 0 true; example_chunk 1 false] in
  let self := example_manager ∅ in
  first_instant_fromisoformat (first_instant_isoformat (start_time session))
    = Ok (start_time session) /\
  (forall history t c, always_success history t c = Success) /\
  0 < max_retries self /\
  exists disk' session',
    save_session first_instant_isoformat ∅ session = Ok disk' /\
    resume_upload first_instant_fromisoformat always_success fifo self disk'
                  (session_id session) 0 fast
    = Ok (Some (mkManager (max_retries self) (sessions self) fast,
                true, Some session')) /\
    forallb uploaded (chunks session') = true /\
    completed session' = true.
Proof.
  split; [reflexivity|]. split; [intros; reflexivity|]. split; [reflexivity|].
  apply (resume_saved_session_completes first_instant_isoformat
           first_instant_fromisoformat always_success fifo (example_manager ∅) ∅
           (example_session [example_chunk 0 true; example_chunk 1 false]) 0 fast);
    [reflexivity | intros; reflexivity | reflexivity].
Defined.

Lemma quicker_probe_never_smaller_chunks_witness :
  (0 < 1 # 100)%Q /\ (1 # 100 <= 1 # 10)%Q /\
  CHUNK_SIZES (analyze_network_speed (Some (1 # 10)%Q))
  <= CHUNK_SIZES (analyze_network_speed (Some (1 # 100)%Q)).
Proof.
  split; [reflexivity|]. split; [discriminate|].
  apply (quicker_probe_never_smaller_chunks (1 # 100) (1 # 10));
    [reflexivity | discriminate].
Defined.

Lemma analyze_repository_totals_witness :
  let fs : gmap string Z := {[ "d/a.txt" := 5 ]} in
  let tree : gmap string (list string) := {[ "d" := ["d/a.txt"; "d/b"] ]} in
  (forall f sz, fs !! f = Some sz -> 0 <= sz) /\
  (let stats := analyze_repository fs tree 0 "d" in
   let files := regular_files fs (match tree !! "d" with
                                  | Some l => l | None => [] end) in
   Stats.total_files stats = Z.of_nat (length files) /\
   Stats.total_size stats = sum_sizes files /\
   0 <= Stats.compressible_size stats /\
   0 <= Stats.binary_size stats /\
   Stats.compressible_size stats + Stats.binary_size stats
     <= Stats.total_size stats /\
   Stats.git_objects_size stats = 0).
Proof.
  assert (H : forall f sz,
             ({[ "d/a.txt" := 5 ]} : gmap string Z) !! f = Some sz -> 0 <= sz).
  { intros f sz Hf. apply lookup_singleton_Some in Hf as [_ <-]. lia. }
  split; [exact H|].
  apply (analyze_repository_totals {[ "d/a.txt" := 5 ]}
           {[ "d" := ["d/a.txt"; "d/b"] ]} 0 "d" H).
Defined.

Lemma analyze_repository_large_files_witness :
  let fs : gmap string Z := {[ "d/a.txt" := 5 ]} in
  let tree : gmap string (list string) := {[ "d" := ["d/a.txt"; "d/b"] ]} in
  (forall f sz, fs !! f = Some sz -> 0 <= sz) /\
  (let stats := analyze_repository fs tree 0 "d" in
   let large := List.filter is_large
                  (regular_files fs (match tree !! "d" with
                                     | Some l => l | None => [] end)) in
   Stats.large_files stats = large /\
   (In ("Found " ++ str_of_int (Z.of_nat (length large))
          ++ " large files - will use adaptive chunking")%string
       (Stats.recommendations stats)
    <-> large <> [])).
Proof.
  assert (H : forall f sz,
             ({[ "d/a.txt" := 5 ]} : gmap string Z) !! f = Some sz -> 0 <= sz).
  { intros f sz Hf. apply lookup_singleton_Some in Hf as [_ <-]. lia. }
  split; [exact H|].
  apply (analyze_repository_large_files {[ "d/a.txt" := 5 ]}
           {[ "d" := ["d/a.txt"; "d/b"] ]} 0 "d" H).
Defined.

Lemma create_upload_session_registers_and_saves_witness :
  let fs : gmap string Z := {[ "a.bin" := 2 * MiB ]} in
  let self := example_manager ∅ in
  first_instant_fromisoformat (first_instant_isoformat 0) = Ok 0 /\
  exists self' fs' disk' session,
    create_upload_session constant_digest first_instant_isoformat
      example_session_id no_git_objects example_archive self fs ∅ ∅ 0 0
      "a.bin" "me/backup"
    = Ok (self', fs', disk', session) /\
    session_id session = example_session_id "a.bin" 0 /\
    repo_name session = "me/backup" /\ start_time session = 0 /\
    completed session = false /\ progress_percentage session = 0%Q /\
    total_size session = fold_right Z.add 0 (map size (chunks session)) /\
    Forall fresh (chunks session) /\
    sessions self' !! session_id session = Some session /\
    max_retries self' = max_retries self /\
    network_speed self' = network_speed self /\
    load_session first_instant_fromisoformat disk' (session_id session)
      = Ok (Some session).
Proof.
  split; [reflexivity|].
  apply (create_upload_session_registers_and_saves constant_digest
           first_instant_isoformat first_instant_fromisoformat
           example_session_id no_git_objects example_archive
           (example_manager ∅) {[ "a.bin" := 2 * MiB ]} ∅ ∅ 0 0
           "a.bin" "me/backup").
  reflexivity.
Defined.

Lemma create_upload_session_for_file_witness :
  let fs : gmap string Z := {[ "a.bin" := 2 * MiB ]} in
  let tree : gmap string (list string) := ∅ in
  let self := example_manager ∅ in
  fs !! "a.bin" = Some (2 * MiB) /\ tree !! "a.bin" = None /\ 0 <= 2 * MiB /\
  first_instant_fromisoformat (first_instant_isoformat 0) = Ok 0 /\
  exists self' disk' session,
    create_upload_session constant_digest first_instant_isoformat
      example_session_id no_git_objects example_archive self fs tree ∅ 0 0
      "a.bin" "me/backup"
    = Ok (self', fs, disk', session) /\
    source_path session = "a.bin" /\
    create_smart_chunks constant_digest (network_speed self) fs "a.bin"
                        (example_session_id "a.bin" 0)
    = Ok (chunks session) /\
    total_size session = 2 * MiB.
Proof.
  assert (H1 : ({[ "a.bin" := 2 * MiB ]} : gmap string Z) !! "a.bin"
               = Some (2 * MiB)) by (apply lookup_singleton_Some; split; reflexivity).
  assert (H2 : (∅ : gmap string (list string)) !! "a.bin" = None)
    by apply lookup_empty.
  assert (H3 : 0 <= 2 * MiB) by (unfold MiB; lia).
  split; [exact H1|]. split; [exact H2|]. split; [exact H3|].
  split; [reflexivity|].
  apply (create_upload_session_for_file constant_digest
           first_instant_isoformat first_instant_fromisoformat
           example_session_id no_git_objects example_archive
           (example_manager ∅) {[ "a.bin" := 2 * MiB ]} ∅ ∅ 0 0
           "a.bin" "me/backup" (2 * MiB) H1 H2 H3).
  reflexivity.
Defined.

Lemma create_upload_session_for_directory_witness :
  let fs : gmap string Z := {[ "d/a.txt" := 5 ]} in
  let tree : gmap string (list string) := {[ "d" := ["d/a.txt"; "d/b"] ]} in
  let self := example_manager ∅ in
  tree !! "d" = Some ["d/a.txt"; "d/b"] /\ fs !! "d" = None /\
  (forall f sz, fs !! f = Some sz -> 0 <= sz) /\
  0 <= snd (example_archive "d") /\
  first_instant_fromisoformat (first_instant_isoformat 0) = Ok 0 /\
  (let stats := analyze_repository fs tree (no_git_objects "d") "d" in
   exists self' fs' disk' session,
     create_upload_session constant_digest first_instant_isoformat
       example_session_id no_git_objects example_archive self fs tree ∅ 0 0
       "d" "me/backup"
     = Ok (self', fs', disk', session) /\
     if 10 * 1024 * 1024 <? Stats.compressible_size stats
     then source_path session = fst (example_archive "d") /\
          total_size session = snd (example_archive "d") /\
          fs' = <[fst (example_archive "d") := snd (example_archive "d")]> fs
     else source_path session = "d" /\
          total_size session = Stats.total_size stats /\
          fs' = fs).
Proof.
  assert (H1 : ({[ "d" := ["d/a.txt"; "d/b"] ]} : gmap string (list string)) !! "d"
               = Some ["d/a.txt"; "d/b"]) by (apply lookup_singleton_Some; split; reflexivity).
  assert (H2 : ({[ "d/a.txt" := 5 ]} : gmap string Z) !! "d" = None)
    by (apply lookup_singleton_None; discriminate).
  assert (H3 : forall f sz,
             ({[ "d/a.txt" := 5 ]} : gmap string Z) !! f = Some sz -> 0 <= sz).
  { intros f sz Hf. apply lookup_singleton_Some in Hf as [_ <-]. lia. }
  assert (H4 : 0 <= snd (example_archive "d")) by (cbn; lia).
  split; [exact H1|]. split; [exact H2|]. split; [exact H3|]. split; [exact H4|].
  split; [reflexivity|].
  apply (create_upload_session_for_directory constant_digest
           first_instant_isoformat first_instant_fromisoformat
           example_session_id no_git_objects example_archive
           (example_manager ∅) {[ "d/a.txt" := 5 ]}
           {[ "d" := ["d/a.txt"; "d/b"] ]} ∅ 0 0 "d" "me/backup"
           ["d/a.txt"; "d/b"] H1 H2 H3 H4).
  reflexivity.
Defined.


Lemma status_of_created_session_witness :
  let fs : gmap string Z := {[ "a.bin" := 2 * MiB ]} in
  first_instant_fromisoformat (first_instant_isoformat 0) = Ok 0 /\
  timedelta_in_range (int_of_float (inject_Z (5000000 - 0) / 1000000)) = true /\
  exists self' fs' disk' session status,
    create_upload_session constant_digest first_instant_isoformat
      example_session_id no_git_objects example_archive (example_manager ∅)
      fs ∅ ∅ 0 0 "a.bin" "me/backup"
    = Ok (self', fs', disk', session) /\
    get_session_status first_instant_fromisoformat short_str_timedelta self'
                       disk' 5000000 (session_id session) = Ok status /\
    dict_get status "error" = None /\
    dict_get status "uploaded_chunks" = Some (PInt 0) /\
    dict_get status "total_chunks"
      = Some (PInt (Z.of_nat (length (chunks session)))) /\
    dict_get status "eta" = Some (PStr (short_str_timedelta 0)) /\
    dict_get status "completed" = Some (PBool false).
Proof.
  split; [reflexivity|]. split; [reflexivity|].
  apply (status_of_created_session constant_digest first_instant_isoformat
           first_instant_fromisoformat example_session_id no_git_objects
           example_archive short_str_timedelta (example_manager ∅)
           {[ "a.bin" := 2 * MiB ]} ∅ ∅ 0 0 5000000 "a.bin" "me/backup");
    reflexivity.
Defined.

Lemma created_session_resumes_to_completion_witness :
  let fs : gmap string Z := {[ "a.bin" := 2 * MiB ]} in
  first_instant_fromisoformat (first_instant_isoformat 0) = Ok 0 /\
  (forall history t c, always_success history t c = Success) /\
  0 < max_retries (example_manager ∅) /\
  exists self' fs' disk' session self'' session',
    create_upload_session constant_digest first_instant_isoformat
      example_session_id no_git_objects example_archive (example_manager ∅)
      fs ∅ ∅ 0 0 "a.bin" "me/backup"
    = Ok (self', fs', disk', session) /\
    resume_upload first_instant_fromisoformat always_success fifo self' disk'
                  (session_id session) 0 fast
    = Ok (Some (self'', true, Some session')) /\
    forallb uploaded (chunks session') = true /\
    completed session' = true /\
    session_id session' = session_id session.
Proof.
  split; [reflexivity|]. split; [intros; reflexivity|]. split; [reflexivity|].
  apply (created_session_resumes_to_completion constant_digest
           first_instant_isoformat first_instant_fromisoformat
           example_session_id no_git_objects example_archive always_success
           fifo (example_manager ∅) {[ "a.bin" := 2 * MiB ]} ∅ ∅ 0 0 0 fast
           "a.bin" "me/backup");
    [reflexivity | intros; reflexivity | reflexivity].
Defined.


Lemma retries_wait_for_backoff_and_reset_witness :
  let st := run always_error fifo (example_manager ∅) 3
              (initial_loop (example_session [example_chunk 0 false]) 3 0 ∅) in
  0 <= 3 /\
  ls_trace st
  = [EvAcquire 0 0] ++ EvAttempt 0 0 0 OtherError
      :: [] ++ EvAttempt 0 1 1 OtherError
      :: [EvAttempt 0 2 3 OtherError; EvReturn 0 3 false] /\
  (0 <= 1)%Q /\ (0 + inject_Z (2 ^ 0) <= 1)%Q.
Proof.
  split; [lia|]. split; [reflexivity|].
  apply (retries_wait_for_backoff_and_reset always_error fifo (example_manager ∅)
           (example_session [example_chunk 0 false]) 3 0 ∅ 3
           [EvAcquire 0 0] [] [EvAttempt 0 2 3 OtherError; EvReturn 0 3 false]
           0%nat 0 0%Q OtherError 1 1%Q OtherError);
    [lia | reflexivity].
Defined.

Lemma run_keeps_session_identity_witness :
  let session := example_session [example_chunk 0 true; example_chunk 1 false] in
  let st := run always_success fifo (example_manager ∅) 2
              (initial_loop session 3 0 ∅) in
  0 <= 3 /\
  session_id (ls_session st) = session_id session /\
  repo_name (ls_session st) = repo_name session /\
  source_path (ls_session st) = source_path session /\
  total_size (ls_session st) = total_size session /\
  start_time (ls_session st) = start_time session /\
  length (chunks (ls_session st)) = length (chunks session).
Proof.
  split; [lia|].
  apply (run_keeps_session_identity always_success fifo (example_manager ∅)
           (example_session [example_chunk 0 true; example_chunk 1 false])
           3 0 ∅ 2).
  lia.
Defined.

Lemma chunk_ids_differ_within_file_witness :
  let fs : gmap string Z := {[ "a.bin" := 2 * MiB ]} in
  let cs := [example_chunk 0 false; example_chunk 1 false] in
  create_smart_chunks constant_digest slow fs "a.bin" "s1" = Ok cs /\
  cs !! 0%nat = Some (example_chunk 0 false) /\
  cs !! 1%nat = Some (example_chunk 1 false) /\ 0%nat <> 1%nat /\
  chunk_id (example_chunk 0 false) <> chunk_id (example_chunk 1 false).
Proof.
  assert (H : create_smart_chunks constant_digest slow
                ({[ "a.bin" := 2 * MiB ]} : gmap string Z) "a.bin" "s1"
              = Ok [example_chunk 0 false; example_chunk 1 false])
    by reflexivity.
  split; [exact H|]. split; [reflexivity|]. split; [reflexivity|].
  split; [discriminate|].
  apply (chunk_ids_differ_within_file constant_digest slow
           {[ "a.bin" := 2 * MiB ]} "a.bin" "s1"
           [example_chunk 0 false; example_chunk 1 false] H
           0%nat 1%nat (example_chunk 0 false) (example_chunk 1 false));
    [reflexivity | reflexivity | discriminate].
Defined.

Lemma chunk_ids_collide_for_same_file_name_witness :
  let fs : gmap string Z := {[ "x/a.bin" := MiB; "y/a.bin" := MiB ]} in
  let c1 := mkChunkInfo "s1_a.bin_0" "x/a.bin" 0 1 MiB "00" false None 0 in
  let c2 := mkChunkInfo "s1_a.bin_0" "y/a.bin" 0 1 MiB "00" false None 0 in
  path_name "x/a.bin" = path_name "y/a.bin" /\
  create_smart_chunks constant_digest slow fs "x/a.bin" "s1" = Ok [c1] /\
  create_smart_chunks constant_digest slow fs "y/a.bin" "s1" = Ok [c2] /\
  [c1] !! 0%nat = Some c1 /\ [c2] !! 0%nat = Some c2 /\
  chunk_id c1 = chunk_id c2.
Proof.
  assert (H1 : create_smart_chunks constant_digest slow
                 ({[ "x/a.bin" := MiB; "y/a.bin" := MiB ]} : gmap string Z)
                 "x/a.bin" "s1"
               = Ok [mkChunkInfo "s1_a.bin_0" "x/a.bin" 0 1 MiB "00" false None 0])
    by reflexivity.
  assert (H2 : create_smart_chunks constant_digest slow
                 ({[ "x/a.bin" := MiB; "y/a.bin" := MiB ]} : gmap string Z)
                 "y/a.bin" "s1"
               = Ok [mkChunkInfo "s1_a.bin_0" "y/a.bin" 0 1 MiB "00" false None 0])
    by reflexivity.
  split; [reflexivity|]. split; [exact H1|]. split; [exact H2|].
  split; [reflexivity|]. split; [reflexivity|].
  apply (chunk_ids_collide_for_same_file_name constant_digest slow
           {[ "x/a.bin" := MiB; "y/a.bin" := MiB ]} "x/a.bin" "y/a.bin" "s1"
           _ _ 0%nat _ _ eq_refl H1 H2 eq_refl eq_refl).
Defined.

Lemma upload_reads_planned_block_up_to_100MiB_witness :
  let fs : gmap string Z := {[ "a.bin" := 2 * MiB ]} in
  let cs := [example_chunk 0 false; example_chunk 1 false] in
  let c := example_chunk 1 false in
  fs !! "a.bin" = Some (2 * MiB) /\ 0 <= 2 * MiB <= 100 * MiB /\
  create_smart_chunks constant_digest slow fs "a.bin" "s1" = Ok cs /\
  cs !! 1%nat = Some c /\
  exists e,
    upload_read slow fs c = Ok e /\
    checksum c = constant_digest "a.bin" e /\
    ext_offset e = Z.of_nat 1 * CHUNK_SIZES slow /\
    ext_length e = size c /\
    ext_offset e + ext_length e <= 2 * MiB.
Proof.
  assert (H1 : ({[ "a.bin" := 2 * MiB ]} : gmap string Z) !! "a.bin"
               = Some (2 * MiB))
    by (apply lookup_singleton_Some; split; reflexivity).
  assert (H2 : 0 <= 2 * MiB <= 100 * MiB) by (unfold MiB; lia).
  assert (H3 : create_smart_chunks constant_digest slow
                 ({[ "a.bin" := 2 * MiB ]} : gmap string Z) "a.bin" "s1"
               = Ok [example_chunk 0 false; example_chunk 1 false])
    by reflexivity.
  split; [exact H1|]. split; [exact H2|]. split; [exact H3|].
  split; [reflexivity|].
  apply (upload_reads_planned_block_up_to_100MiB constant_digest slow
           {[ "a.bin" := 2 * MiB ]} "a.bin" "s1" (2 * MiB)
           [example_chunk 0 false; example_chunk 1 false] 1%nat
           (example_chunk 1 false) H1 H2 H3 eq_refl).
Defined.
